(** * Verification of [scripts/patch_linux.py]

    The script patches one JavaScript bundle inside an [app.asar] archive by
    applying a fixed list of regular-expression rules.  This development
    embeds

    - the fragment of Python's [re] module the script relies on
      ([Pattern.search], [Pattern.finditer], [Pattern.subn]) as a
      backtracking matcher with named groups and backreferences;
    - [PatchRule], [apply_rule] and the five rules declared in [main];
    - the body of [main] as a program in a state/error monad over the
      files the script touches, with the external tools as oracles.

    Text is a [string] whose characters are read as the code points
    U+0000 .. U+00FF. *)

From Stdlib Require Import String Ascii List Bool Arith NArith ZArith Lia
  DecimalString.
Import ListNotations.
Open Scope string_scope.
Open Scope nat_scope.

Set Implicit Arguments.

(* ================================================================= *)
(** ** Strings *)

(** The double-quote character, and the string holding just it. *)
Definition dquote : ascii := "034"%char.
Definition q : string := String dquote EmptyString.

(** [strip_prefix p s] is [Some s'] when [s = p ++ s']. *)
Fixpoint strip_prefix (p s : string) : option string :=
  match p with
  | EmptyString => Some s
  | String a p' =>
      match s with
      | String b s' => if Ascii.eqb a b then strip_prefix p' s' else None
      | EmptyString => None
      end
  end.

(** Python's [text[i:]] and [text[:n]] for [0 <= i, n]. *)
Fixpoint drop (n : nat) (s : string) : string :=
  match n, s with
  | S n', String _ s' => drop n' s'
  | _, _ => s
  end.

Fixpoint take (n : nat) (s : string) : string :=
  match n, s with
  | S n', String a s' => String a (take n' s')
  | _, _ => EmptyString
  end.

(** [text[i:j]] *)
Definition slice (i j : nat) (s : string) : string := take (j - i) (drop i s).

(** [str(n)] for an [int]. *)
Definition str_of_int (z : Z) : string := NilZero.string_of_int (Z.to_int z).

(* ================================================================= *)
(** ** The [re] fragment used by the script *)

Module Re.

(** Character classes [\w], [\s], [\d] of a [str] pattern (Unicode mode),
    on code points below 256, and the sets [[...]] and [[^...]]. *)
Inductive cclass :=
| Word
| Space
| Digit
| OneOf (cs : string)
| NoneOf (cs : string).

Fixpoint mem (a : ascii) (cs : string) : bool :=
  match cs with
  | EmptyString => false
  | String b cs' => Ascii.eqb a b || mem a cs'
  end.

Definition between (lo hi n : nat) : bool := (lo <=? n) && (n <=? hi).

Definition is_digit (a : ascii) : bool := between 48 57 (nat_of_ascii a).

Definition is_word (a : ascii) : bool :=
  let n := nat_of_ascii a in
  between 48 57 n || between 65 90 n || (n =? 95) || between 97 122 n
  || (n =? 170) || between 178 179 n || (n =? 181) || between 185 186 n
  || between 188 190 n || between 192 214 n || between 216 246 n
  || between 248 255 n.

Definition is_space (a : ascii) : bool :=
  let n := nat_of_ascii a in
  between 9 13 n || between 28 32 n || (n =? 133) || (n =? 160).

Definition in_class (c : cclass) (a : ascii) : bool :=
  match c with
  | Word => is_word a
  | Space => is_space a
  | Digit => is_digit a
  | OneOf cs => mem a cs
  | NoneOf cs => negb (mem a cs)
  end.

(** Pattern syntax: literals, one character of a class, greedy [c+] and
    [c*] over a class, capturing groups [(?P<n>r)] (a numbered group is
    named by its number), backreferences [(?P=n)], concatenation,
    alternation [r1|r2] and the greedy optional group [(?:r)?]. *)
Inductive regex :=
| Lit (s : string)
| One (c : cclass)
| Plus (c : cclass)
| Star (c : cclass)
| Group (name : string) (r : regex)
| Backref (name : string)
| Seq (r1 r2 : regex)
| Alt (r1 r2 : regex)
| Opt (r : regex).

(** Captured groups, most recent binding first. *)
Definition Env := list (string * string).

Fixpoint lookup (n : string) (env : Env) : option string :=
  match env with
  | [] => None
  | (k, v) :: env' => if String.eqb n k then Some v else lookup n env'
  end.

(** The part of [s] consumed when [s'] is what remains of it. *)
Definition consumed (s s' : string) : string :=
  take (String.length s - String.length s') s.

Section Engine.
Variable A : Type.

(** Greedy repetition of a class: the longest run first, then shorter
    ones on backtracking. *)
Fixpoint star_k (c : cclass) (s : string) (k : string -> option A)
  : option A :=
  match s with
  | String a s' =>
      if in_class c a then
        match star_k c s' k with
        | Some x => Some x
        | None => k s
        end
      else k s
  | EmptyString => k s
  end.

Definition plus_k (c : cclass) (s : string) (k : string -> option A)
  : option A :=
  match s with
  | String a s' => if in_class c a then star_k c s' k else None
  | EmptyString => None
  end.

(** Backtracking matcher in continuation-passing style: [run r s env k]
    matches [r] at the head of [s] and hands the rest of the text and
    the groups to [k]; a [None] from [k] makes it backtrack. *)
Fixpoint run (r : regex) (s : string) (env : Env)
         (k : string -> Env -> option A) : option A :=
  match r with
  | Lit p =>
      match strip_prefix p s with
      | Some s' => k s' env
      | None => None
      end
  | One c =>
      match s with
      | String a s' => if in_class c a then k s' env else None
      | EmptyString => None
      end
  | Plus c => plus_k c s (fun s' => k s' env)
  | Star c => star_k c s (fun s' => k s' env)
  | Group n r1 =>
      run r1 s env (fun s' env' => k s' ((n, consumed s s') :: env'))
  | Backref n =>
      match lookup n env with
      | Some v =>
          match strip_prefix v s with
          | Some s' => k s' env
          | None => None
          end
      | None => None
      end
  | Seq r1 r2 => run r1 s env (fun s' env' => run r2 s' env' k)
  | Alt r1 r2 =>
      match run r1 s env k with
      | Some x => Some x
      | None => run r2 s env k
      end
  | Opt r1 =>
      match run r1 s env k with
      | Some x => Some x
      | None => k s env
      end
  end.
End Engine.

(** A match object: its span and its groups. *)
Record Match := mkMatch {
  m_start : nat;
  m_end : nat;
  m_groups : Env
}.

(** [m.group(name)]; a group that did not take part formats as [None]. *)
Definition group (m : Match) (name : string) : string :=
  match lookup name (m_groups m) with
  | Some v => v
  | None => "None"
  end.

(** One match attempt at the head of [s].  With [must_advance] an empty
    match is rejected and the matcher backtracks. *)
Definition match_here (r : regex) (s : string) (must_advance : bool)
  : option (nat * Env) :=
  run r s []
      (fun s' env =>
         if must_advance && (String.length s' =? String.length s)
         then None
         else Some (String.length s - String.length s', env)).

(** The engine's search loop: try position [pos], then each later one;
    [must_advance] only constrains the first attempt. *)
Fixpoint search_at (r : regex) (s : string) (pos : nat) (must_advance : bool)
  : option Match :=
  match match_here r s must_advance with
  | Some (len, env) => Some (mkMatch pos (pos + len) env)
  | None =>
      match s with
      | EmptyString => None
      | String _ s' => search_at r s' (S pos) false
      end
  end.

Definition search_from (r : regex) (text : string) (start : nat)
           (must_advance : bool) : option Match :=
  search_at r (drop start text) start must_advance.

(** [pattern.search(text)] *)
Definition search (r : regex) (text : string) : option Match :=
  search_from r text 0 false.

(** The scanner shared by [finditer] and [subn]: the next search starts
    where the last match ended, and must advance past an empty match.
    Every iteration lowers [2 * (len - start) + (if must_advance then 0
    else 1)], so the fuel given by [scan] is never used up
    (see [scan_loop_fuel]). *)
Fixpoint scan_loop (fuel : nat) (r : regex) (text : string) (start : nat)
         (must_advance : bool) : list Match :=
  match fuel with
  | 0 => []
  | S fuel' =>
      match search_from r text start must_advance with
      | None => []
      | Some m =>
          m :: scan_loop fuel' r text (m_end m) (m_end m =? m_start m)
      end
  end.

Definition scan (r : regex) (text : string) : list Match :=
  scan_loop (2 * String.length text + 2) r text 0 false.

(** [pattern.finditer(text)], as the list it yields. *)
Definition finditer (r : regex) (text : string) : list Match := scan r text.

(** Joining the pieces of [pattern.subn]: the text between matches and the
    replacement of each match. *)
Fixpoint join_pieces (repl : Match -> string) (text : string) (i : nat)
         (ms : list Match) : string :=
  match ms with
  | [] => drop i text
  | m :: ms' =>
      slice i (m_start m) text ++ repl m ++ join_pieces repl text (m_end m) ms'
  end.

(** [pattern.subn(repl, text)].  A [str] replacement stands for its
    template expansion, a function of the match like a callable one. *)
Definition subn (r : regex) (repl : Match -> string) (text : string)
  : string * nat :=
  let ms := scan r text in
  (join_pieces repl text 0 ms, List.length ms).

End Re.

(* ================================================================= *)
(** ** Patch rules and [apply_rule] *)

(** Exceptions the script raises. *)
Inductive exn :=
| RuntimeError (msg : string)
| OSError (msg : string).

Inductive result (A : Type) :=
| Return (a : A)
| Raise (e : exn).
Arguments Return {A} a.
Arguments Raise {A} e.

(** [Replacement = str | Callable[[Match[str]], str]]; [re] turns a [str]
    into the function expanding it, so both are functions of the match. *)
Definition Replacement := Re.Match -> string.

Record PatchRule := mkPatchRule {
  name : string;
  unpatched : Re.regex;
  replacement : Replacement;
  patched : option Re.regex;
  expected_replacements : Z
}.

(** Truth value of what [search] returns: a match object is true, [None]
    is false. *)
Definition truthy (o : option Re.Match) : bool :=
  match o with
  | Some _ => true
  | None => false
  end.

(** [rule.patched is not None and rule.patched.search(text)] *)
Definition patched_found (rule : PatchRule) (text : string) : bool :=
  match patched rule with
  | Some p => truthy (Re.search p text)
  | None => false
  end.

(** [rule.unpatched.search(text)] *)
Definition unpatched_found (rule : PatchRule) (text : string) : bool :=
  truthy (Re.search (unpatched rule) text).

(** The three guards that lead to ["already"]. *)
Definition primary_guard (rule : PatchRule) (text : string) : bool :=
  patched_found rule text && negb (unpatched_found rule text).

Definition dry_fallback_guard (rule : PatchRule) (text : string) : bool :=
  (List.length (Re.finditer (unpatched rule) text) =? 0)
  && patched_found rule text.

Definition real_fallback_guard (rule : PatchRule) (text : string) : bool :=
  (snd (Re.subn (unpatched rule) (replacement rule) text) =? 0)
  && patched_found rule text.

Definition dry_count_message (rule : PatchRule) (count : nat) : string :=
  name rule ++ ": expected " ++ str_of_int (expected_replacements rule)
  ++ " match(es), found " ++ str_of_int (Z.of_nat count).

Definition real_count_message (rule : PatchRule) (replaced : nat) : string :=
  name rule ++ ": expected " ++ str_of_int (expected_replacements rule)
  ++ " replacement(s), got " ++ str_of_int (Z.of_nat replaced).

Definition apply_rule (text : string) (rule : PatchRule) (dry_run : bool)
  : result (string * string) :=
  if primary_guard rule text then Return (text, "already")
  else if dry_run then
    let count := List.length (Re.finditer (unpatched rule) text) in
    if dry_fallback_guard rule text then Return (text, "already")
    else if negb (Z.of_nat count =? expected_replacements rule)%Z then
      Raise (RuntimeError (dry_count_message rule count))
    else Return (text, "would_apply")
  else
    let '(new_text, replaced) :=
      Re.subn (unpatched rule) (replacement rule) text in
    if real_fallback_guard rule text then Return (text, "already")
    else if negb (Z.of_nat replaced =? expected_replacements rule)%Z then
      Raise (RuntimeError (real_count_message rule replaced))
    else Return (new_text, "applied").

(* ================================================================= *)
(** ** The rules declared in [main] *)

Module Rules.
Import Re.

Notation "r1 >> r2" := (Seq r1 r2) (at level 61, right associativity).

Definition w (n : string) : regex := Group n (Plus Word).

Definition reasoning : string := q ++ "reasoning" ++ q.
Definition explored_call : string := "(" ++ q ++ "explored" ++ q ++ ")".
Definition preview : string := q ++ "preview" ++ q.
Definition collapsed : string := q ++ "collapsed" ++ q.

Definition repl_exploration_drop_reasoning (m : Match) : string :=
  let item := group m "item" in
  let buf := group m "buf" in
  let close := group m "close" in
  "if(" ++ item ++ ".type===" ++ reasoning ++ "){" ++ buf ++ "&&" ++ close
  ++ explored_call ++ "}" ++ buf ++ "&&" ++ close ++ explored_call.

Definition repl_exploration_no_autocollapse (m : Match) : string :=
  let cb := group m "cb" in
  let cond := group m "cond" in
  let setter := group m "setter" in
  cb ++ "=()=>{" ++ cond ++ "&&" ++ setter ++ "(" ++ preview ++ ")}".

Definition repl_show_reasoning_items (m : Match) : string :=
  let render := group m "render" in
  let child := group m "child" in
  render ++ "=" ++ child.

Definition repl_no_autocollapse_reasoning (m : Match) : string :=
  let stream := group m "stream" in
  let el := group m "el" in
  let ref := group m "ref" in
  "if(!" ++ stream ++ "){return}const " ++ el ++ "=" ++ ref ++ ".current;".

Definition repl_autoscroll_user_scroll_flag (m : Match) : string :=
  let el := group m "el" in
  let ref := group m "ref" in
  "const " ++ el ++ "=" ++ ref ++ ".current;"
  ++ el ++ "&&(!" ++ el ++ ".__codexReasoningAutoScrollInit&&("
  ++ el ++ ".__codexReasoningAutoScrollInit=1,"
  ++ el ++ ".__codexReasoningAutoScrollEnabled=1,"
  ++ el ++ ".addEventListener(" ++ q ++ "scroll" ++ q ++ ",()=>{"
  ++ el ++ ".__codexReasoningAutoScrollEnabled="
  ++ el ++ ".scrollHeight-" ++ el ++ ".clientHeight-" ++ el ++ ".scrollTop<16"
  ++ "},{passive:!0})"
  ++ "),"
  ++ el ++ ".__codexReasoningAutoScrollEnabled&&(" ++ el ++ ".scrollTop="
  ++ el ++ ".scrollHeight))".

Definition exploration_continuation_drop_reasoning : PatchRule :=
  {| name := "exploration_continuation_drop_reasoning";
     unpatched :=
       Lit "if(" >> w "item" >> Lit (".type===" ++ reasoning ++ "){")
       >> w "buf" >> Lit "&&"
       >> Alt (Backref "buf" >> Lit ".push(" >> Backref "item"
               >> Lit ");continue")
              (Lit ("pt" ++ explored_call))
       >> Lit "}" >> Backref "buf" >> Lit "&&" >> w "close"
       >> Lit explored_call;
     patched :=
       Some (Lit "if(" >> Plus Word >> Lit (".type===" ++ reasoning ++ "){")
             >> Plus Word >> Lit "&&" >> w "close" >> Lit explored_call
             >> Lit "}" >> Plus Word >> Lit "&&" >> Backref "close"
             >> Lit explored_call);
     replacement := repl_exploration_drop_reasoning;
     expected_replacements := 1 |}.

Definition exploration_no_autocollapse_on_finish : PatchRule :=
  {| name := "exploration_no_autocollapse_on_finish";
     unpatched :=
       w "cb" >> Lit "=()=>{" >> w "setter" >> Lit "(" >> w "cond"
       >> Lit ("?" ++ preview ++ ":" ++ collapsed ++ ")}");
     patched :=
       Some (w "cb" >> Lit "=()=>{" >> Plus Word >> Lit "&&" >> Plus Word
             >> Lit ("(" ++ preview ++ ")}"));
     replacement := repl_exploration_no_autocollapse;
     expected_replacements := 1 |}.

(** In the patched pattern [\1] is the first group, [render]. *)
Definition show_reasoning_items_in_log : PatchRule :=
  {| name := "show_reasoning_items_in_log";
     unpatched :=
       w "render" >> Lit "=" >> w "child" >> Lit "," >> w "item"
       >> Lit (".type===" ++ reasoning ++ "&&(") >> Backref "render"
       >> Lit "=null)";
     patched :=
       Some (w "render" >> Lit "=" >> w "child" >> Star Space >> Lit "}"
             >> Star Space >> Lit "let" >> Plus Space >> Plus Word >> Lit ";"
             >> Star Space >> Plus Word >> Lit "[" >> Plus Digit
             >> Lit "]!==" >> Backref "render");
     replacement := repl_show_reasoning_items;
     expected_replacements := 1 |}.

Definition reasoning_no_autocollapse_on_finish : PatchRule :=
  {| name := "reasoning_no_autocollapse_on_finish";
     unpatched :=
       Lit "if(!" >> w "stream" >> Lit "){" >> w "setter"
       >> Lit "(!1);return}const " >> w "el" >> Lit "=" >> w "ref"
       >> Lit ".current;";
     patched :=
       Some (Lit "if(!" >> w "stream" >> Lit "){return}const " >> w "el"
             >> Lit "=" >> w "ref" >> Lit ".current;");
     replacement := repl_no_autocollapse_reasoning;
     expected_replacements := 1 |}.

Definition reasoning_autoscroll_user_scroll_flag : PatchRule :=
  {| name := "reasoning_autoscroll_user_scroll_flag";
     unpatched :=
       Lit "const " >> w "el" >> Lit "=" >> w "ref" >> Lit ".current;"
       >> Backref "el" >> Lit "&&("
       >> Opt (Backref "el" >> Lit ".scrollHeight-" >> Backref "el"
               >> Lit ".clientHeight-" >> Backref "el"
               >> Lit ".scrollTop<16)&&(")
       >> Backref "el" >> Lit ".scrollTop=" >> Backref "el"
       >> Lit ".scrollHeight)";
     patched := Some (Lit "__codexReasoningAutoScrollInit");
     replacement := repl_autoscroll_user_scroll_flag;
     expected_replacements := 1 |}.

Definition patches : list PatchRule :=
  [ exploration_continuation_drop_reasoning;
    exploration_no_autocollapse_on_finish;
    show_reasoning_items_in_log;
    reasoning_no_autocollapse_on_finish;
    reasoning_autoscroll_user_scroll_flag ].

End Rules.

(* ================================================================= *)
(** ** The files and tools [main] works with *)

(** An extracted directory: relative path and text of each file. *)
Definition Dir := list (string * string).

Fixpoint read_text (d : Dir) (path : string) : option string :=
  match d with
  | [] => None
  | (p, c) :: d' => if String.eqb path p then Some c else read_text d' path
  end.

Fixpoint write_text (d : Dir) (path text : string) : Dir :=
  match d with
  | [] => [(path, text)]
  | (p, c) :: d' =>
      if String.eqb path p then (p, text) :: d'
      else (p, c) :: write_text d' path text
  end.

Definition exists_in (d : Dir) (path : string) : bool :=
  match read_text d path with
  | Some _ => true
  | None => false
  end.

(** [src=["\'][^"\']*assets/(index-[^"\']+\.js)["\']] *)
Definition bundle_src : Re.regex :=
  let quotes := q ++ "'" in
  Re.Seq (Re.Lit "src=")
   (Re.Seq (Re.One (Re.OneOf quotes))
    (Re.Seq (Re.Star (Re.NoneOf quotes))
     (Re.Seq (Re.Lit "assets/")
      (Re.Seq (Re.Group "1"
                 (Re.Seq (Re.Lit "index-")
                   (Re.Seq (Re.Plus (Re.NoneOf quotes)) (Re.Lit ".js"))))
       (Re.One (Re.OneOf quotes)))))).

(** Paths are relative to the extraction root. *)
Definition find_webview_bundle_from_index_html (extracted_root : Dir)
  : result string :=
  let index_html := "webview/index.html" in
  match read_text extracted_root index_html with
  | None => Raise (RuntimeError ("Missing expected file: " ++ index_html))
  | Some html =>
      match Re.search bundle_src html with
      | None =>
          Raise (RuntimeError
                   "Could not locate webview bundle in webview/index.html")
      | Some m =>
          let bundle := "webview/assets/" ++ Re.group m "1" in
          if exists_in extracted_root bundle then Return bundle
          else Raise (RuntimeError
                        ("Bundle referenced by index.html does not exist: "
                         ++ bundle))
      end
  end.

(** [bundle.with_suffix(".beautified.js")] for a bundle name ending in
    [.js], as the pattern above guarantees. *)
Definition beautified_path (bundle : string) : string :=
  take (String.length bundle - 3) bundle ++ ".beautified.js".

(** How [target.write_bytes(source.read_bytes())] ends.  The bytes are
    read, the target is opened for writing, which creates it or empties
    it, and the bytes are written to it.  When the call raises, the
    target is as it was ([left = None]: the bytes could not be read or
    the target could not be opened) or holds the first [n] of the bytes
    ([left = Some n]). *)
Inductive WriteOutcome :=
| Written
| WriteFailed (e : exn) (left : option nat).

(** The target file after the call, and what the call returns. *)
Definition write_bytes (old : option string) (data : string)
           (o : WriteOutcome) : option string * result unit :=
  match o with
  | Written => (Some data, Return tt)
  | WriteFailed e None => (old, Raise e)
  | WriteFailed e (Some n) => (Some (take n data), Raise e)
  end.

(** The external collaborators.  Each command run through [run_checked]
    either succeeds or raises [RuntimeError] with the command's output;
    what it computes is left open.  [backup_write] and [archive_write]
    say how the operating system lets the two copies at the end of
    [main] end, given the bytes to copy. *)
Record Tools := mkTools {
  find_default_asar : result (option string);
  now : string;
  asar_extract : string -> result Dir;
  node_check : string -> result unit;
  js_beautify : string -> result string;
  asar_pack : Dir -> result string;
  backup_write : string -> WriteOutcome;
  archive_write : string -> WriteOutcome;
  sha256_file : string -> string;
  sha256_asar_header_json : string -> string
}.

Record Args := mkArgs {
  asar : option string;
  dry_run : bool;
  no_beautify : bool;
  keep_extracted : bool
}.

(** What a run does, in order, each step with what it is given; kept next
    to the files so that claims about the order of steps can be stated.
    A step is recorded when it starts; the two copies at the end are
    recorded together with what they do to their target. *)
Inductive Event :=
| EvExtract (archive_bytes : string)
| EvApplyRule (rule : PatchRule) (text : string)
| EvWriteBundle (text : string)
| EvNodeCheck (text : string)
| EvBeautify (text : string)
| EvPack (dir : Dir)
| EvWriteBackup (archive_bytes : string)
| EvWriteArchive (packed : string)
| EvKeepExtracted
| EvCleanup.

(** The files of a run.  [archive] is [app_asar], [backup] is
    [backup_asar] (the archive's path with a longer suffix), [tmp_out] is
    [tmp_out_asar] and [extracted] the temporary directory, both under
    the system's temporary directory; [kept] is [keep_dir].  [None] is a
    path that does not exist. *)
Record World := mkWorld {
  archive : option string;
  backup : option string;
  tmp_out : option string;
  extracted : option Dir;
  kept : option Dir;
  stdout : list string;
  stderr : list string;
  trace : list Event
}.

Module Script.

Definition M (A : Type) : Type := World -> World * result A.

Definition ret {A} (a : A) : M A := fun w => (w, Return a).

Definition bind {A B} (c : M A) (f : A -> M B) : M B :=
  fun w =>
    match c w with
    | (w', Return a) => f a w'
    | (w', Raise e) => (w', Raise e)
    end.

Notation "x <- c ;; k" := (bind c (fun x => k))
  (at level 61, c at next level, right associativity).
Notation "c ;;; k" := (bind c (fun _ => k))
  (at level 61, right associativity).

Definition lift {A} (r : result A) : M A := fun w => (w, r).

Definition get : M World := fun w => (w, Return w).

Definition modify (f : World -> World) : M unit :=
  fun w => (f w, Return tt).

Definition emit (e : Event) : M unit :=
  modify (fun w => mkWorld (archive w) (backup w) (tmp_out w) (extracted w)
                           (kept w) (stdout w) (stderr w) (trace w ++ [e])).

Definition print (line : string) : M unit :=
  modify (fun w => mkWorld (archive w) (backup w) (tmp_out w) (extracted w)
                           (kept w) (stdout w ++ [line]) (stderr w) (trace w)).

Definition eprint (line : string) : M unit :=
  modify (fun w => mkWorld (archive w) (backup w) (tmp_out w) (extracted w)
                           (kept w) (stdout w) (stderr w ++ [line]) (trace w)).

Definition set_tmp_out (b : option string) : M unit :=
  modify (fun w => mkWorld (archive w) (backup w) b (extracted w)
                           (kept w) (stdout w) (stderr w) (trace w)).

Definition set_extracted (d : option Dir) : M unit :=
  modify (fun w => mkWorld (archive w) (backup w) (tmp_out w) d
                           (kept w) (stdout w) (stderr w) (trace w)).

Definition set_kept (d : option Dir) : M unit :=
  modify (fun w => mkWorld (archive w) (backup w) (tmp_out w) (extracted w)
                           d (stdout w) (stderr w) (trace w)).

(** [backup_asar.write_bytes(app_asar.read_bytes())], where [data] is
    what the archive holds.  The step is recorded and the backup file
    changed in one move. *)
Definition write_backup (tools : Tools) (data : string) : M unit :=
  fun w =>
    let '(file, r) := write_bytes (backup w) data (backup_write tools data) in
    (mkWorld (archive w) file (tmp_out w) (extracted w) (kept w)
             (stdout w) (stderr w) (trace w ++ [EvWriteBackup data]), r).

(** [app_asar.write_bytes(tmp_out_asar.read_bytes())], where [data] is
    what the packed file holds. *)
Definition write_archive (tools : Tools) (data : string) : M unit :=
  fun w =>
    let '(file, r) := write_bytes (archive w) data (archive_write tools data) in
    (mkWorld file (backup w) (tmp_out w) (extracted w) (kept w)
             (stdout w) (stderr w) (trace w ++ [EvWriteArchive data]), r).

(** [with tempfile.TemporaryDirectory(...) as tmpdir: body]: the directory
    is removed when the block is left, by [return], by falling through or
    by an exception. *)
Definition with_tmpdir {A} (body : M A) : M A :=
  fun w =>
    let '(w1, _) := set_extracted (Some []) w in
    let '(w2, r) := body w1 in
    let '(w3, _) := (set_extracted None ;;; emit EvCleanup) w2 in
    (w3, r).

(** The loop over [patches]: each rule sees the text the previous one
    returned; an exception leaves the loop at once. *)
Fixpoint run_rules (rules : list PatchRule) (dry : bool) (text : string)
         (statuses : list (string * string))
  : M (string * list (string * string)) :=
  match rules with
  | [] => ret (text, statuses)
  | rule :: rest =>
      emit (EvApplyRule rule text) ;;;
      r <- lift (apply_rule text rule dry) ;;
      let '(text', status) := r in
      run_rules rest dry text' (statuses ++ [(name rule, status)])
  end.

(** [f"{name}: {status}"] *)
Definition status_line (s : string * string) : string :=
  fst s ++ ": " ++ snd s.

Fixpoint print_statuses (statuses : list (string * string)) : M unit :=
  match statuses with
  | [] => ret tt
  | s :: rest => print (status_line s) ;;; print_statuses rest
  end.

(** The loop without the bookkeeping: what it returns, and the calls of
    [apply_rule] it makes. *)
Fixpoint fold_rules (rules : list PatchRule) (dry : bool) (text : string)
         (statuses : list (string * string))
  : result (string * list (string * string)) :=
  match rules with
  | [] => Return (text, statuses)
  | rule :: rest =>
      match apply_rule text rule dry with
      | Return (text', status) =>
          fold_rules rest dry text' (statuses ++ [(name rule, status)])
      | Raise e => Raise e
      end
  end.

Fixpoint rule_events (rules : list PatchRule) (dry : bool) (text : string)
  : list Event :=
  match rules with
  | [] => []
  | rule :: rest =>
      EvApplyRule rule text ::
      match apply_rule text rule dry with
      | Return (text', _) => rule_events rest dry text'
      | Raise _ => []
      end
  end.

(** [Path(args.asar).expanduser() if args.asar else find_default_asar()] *)
Definition resolve_asar (tools : Tools) (args : Args)
  : result (option string) :=
  match asar args with
  | Some (String a p) => Return (Some (String a p))
  | _ => find_default_asar tools
  end.

(** [bundle.read_text("utf-8")] for a bundle the directory holds. *)
Definition bundle_text (dir : Dir) (bundle : string) : string :=
  match read_text dir bundle with
  | Some t => t
  | None => ""
  end.

(** The body of the [with] block.  [Some rc] is a [return rc] inside the
    block, [None] is falling out of it. *)
Definition patch_in_tmpdir (tools : Tools) (args : Args)
           (patches : list PatchRule) (app_asar : string) : M (option Z) :=
  w <- get ;;
  let original_archive := match archive w with Some b => b | None => "" end in
  emit (EvExtract original_archive) ;;;
  dir <- lift (asar_extract tools original_archive) ;;
  set_extracted (Some dir) ;;;
  bundle <- lift (find_webview_bundle_from_index_html dir) ;;
  let original_js := bundle_text dir bundle in
  r <- run_rules patches (dry_run args) original_js [] ;;
  let '(text, statuses) := r in
  print_statuses statuses ;;;
  if dry_run args then ret (Some 0%Z)
  else if String.eqb text original_js then
    print "No changes to write (all patches already applied)." ;;;
    ret (Some 0%Z)
  else
    emit (EvWriteBundle text) ;;;
    let dir1 := write_text dir bundle text in
    set_extracted (Some dir1) ;;;
    emit (EvNodeCheck text) ;;;
    lift (node_check tools text) ;;;
    dir2 <- (if no_beautify args then ret dir1
             else
               emit (EvBeautify text) ;;;
               pretty <- lift (js_beautify tools text) ;;
               let dir2 := write_text dir1 (beautified_path bundle) pretty in
               set_extracted (Some dir2) ;;;
               ret dir2) ;;
    emit (EvPack dir2) ;;;
    packed <- lift (asar_pack tools dir2) ;;
    set_tmp_out (Some packed) ;;;
    write_backup tools original_archive ;;;
    write_archive tools packed ;;;
    (if keep_extracted args then
       w' <- get ;;
       match kept w' with
       | Some _ =>
           lift (Raise (RuntimeError
                          ("Refusing to overwrite: codex_app_asar_extract_keep."
                           ++ now tools)))
       | None =>
           emit EvKeepExtracted ;;;
           set_kept (Some dir2) ;;;
           set_extracted None ;;;
           print ("kept_extracted: codex_app_asar_extract_keep." ++ now tools)
       end
     else ret tt) ;;;
    ret None.

(** [main], for the rule list [patches].  The result is the exit status
    [main] returns, or the exception that ends it. *)
Definition main_with (patches : list PatchRule) (tools : Tools) (args : Args)
  : M Z :=
  located <- lift (resolve_asar tools args) ;;
  match located with
  | None =>
      eprint "ERROR: app.asar not found. Pass --asar to specify it." ;;;
      ret 2%Z
  | Some app_asar =>
      w <- get ;;
      match archive w with
      | None => eprint ("ERROR: not found: " ++ app_asar) ;;; ret 2%Z
      | Some _ =>
          let backup_asar := app_asar ++ ".bak." ++ now tools in
          rc <- with_tmpdir (patch_in_tmpdir tools args patches app_asar) ;;
          match rc with
          | Some code => ret code
          | None =>
              w' <- get ;;
              let new_bytes := match archive w' with Some b => b | None => "" end in
              let bak_bytes := match backup w' with Some b => b | None => "" end in
              print "PATCHED" ;;;
              print ("asar:        " ++ app_asar) ;;;
              print ("backup:      " ++ backup_asar) ;;;
              print ("sha256(new): " ++ sha256_file tools new_bytes) ;;;
              print ("sha256(bak): " ++ sha256_file tools bak_bytes) ;;;
              print ("asar_header_sha256: "
                     ++ sha256_asar_header_json tools new_bytes) ;;;
              ret 0%Z
          end
      end
  end.

Definition main : Tools -> Args -> M Z := main_with Rules.patches.

(** A world after some more steps have been recorded. *)
Definition add_events (w : World) (evs : list Event) : World :=
  mkWorld (archive w) (backup w) (tmp_out w) (extracted w) (kept w)
          (stdout w) (stderr w) (trace w ++ evs).

(** Whether a run got as far as writing the backup or the archive. *)
Definition wrote_backup (evs : list Event) : Prop :=
  exists b, In (EvWriteBackup b) evs.

Definition wrote_archive (evs : list Event) : Prop :=
  exists p, In (EvWriteArchive p) evs.

(** The rules a run called [apply_rule] on, in order. *)
Fixpoint applied_rules (evs : list Event) : list PatchRule :=
  match evs with
  | [] => []
  | EvApplyRule rule _ :: evs' => rule :: applied_rules evs'
  | _ :: evs' => applied_rules evs'
  end.

(** A step that writes to the bundle, the packed archive, the backup or
    the archive, or runs a tool on the patched bundle. *)
Definition is_write (ev : Event) : bool :=
  match ev with
  | EvExtract _ | EvApplyRule _ _ | EvCleanup => false
  | _ => true
  end.




(** A world after some more lines have been printed. *)
Definition add_lines (w : World) (lines : list string) : World :=
  mkWorld (archive w) (backup w) (tmp_out w) (extracted w) (kept w)
          (stdout w ++ lines) (stderr w) (trace w).

End Script.
(* ================================================================= *)
(** ** What a pattern matches *)

(** The matcher above says how [re] searches; this says what it can
    find.  [Matches r env x env'] holds when [x] is a string the pattern
    [r] can match with the groups [env] bound before and [env'] after.
    A string related by it need not be the one the greedy search picks;
    [SemFacts] shows the search succeeds exactly when some match
    exists. *)
Module Sem.
Import Re.

Fixpoint all_in (c : cclass) (x : string) : bool :=
  match x with
  | EmptyString => true
  | String a x' => in_class c a && all_in c x'
  end.

Inductive Matches : regex -> Env -> string -> Env -> Prop :=
| MLit p env : Matches (Lit p) env p env
| MOne c a env :
    in_class c a = true -> Matches (One c) env (String a EmptyString) env
| MPlus c a x env :
    in_class c a = true -> all_in c x = true ->
    Matches (Plus c) env (String a x) env
| MStar c x env : all_in c x = true -> Matches (Star c) env x env
| MGroup n r env x env' :
    Matches r env x env' -> Matches (Group n r) env x ((n, x) :: env')
| MBackref n env v : lookup n env = Some v -> Matches (Backref n) env v env
| MSeq r1 r2 env x1 env1 x2 env2 :
    Matches r1 env x1 env1 -> Matches r2 env1 x2 env2 ->
    Matches (Seq r1 r2) env (x1 ++ x2) env2
| MAltL r1 r2 env x env' :
    Matches r1 env x env' -> Matches (Alt r1 r2) env x env'
| MAltR r1 r2 env x env' :
    Matches r2 env x env' -> Matches (Alt r1 r2) env x env'
| MOptSome r env x env' : Matches r env x env' -> Matches (Opt r) env x env'
| MOptNone r env : Matches (Opt r) env EmptyString env.

(** [r] matches at offset [n] of [text]. *)
Definition occurs_at (r : regex) (text : string) (n : nat) : Prop :=
  exists a x b env,
    text = a ++ x ++ b /\ String.length a = n /\ Matches r [] x env.

(** [r] matches somewhere in [text]. *)
Definition occurs (r : regex) (text : string) : Prop :=
  exists n, occurs_at r text n.

(** A text as the list of its characters, and a run of word
    characters. *)
Definition chars (s : string) : list ascii := list_ascii_of_string s.

Definition word (l : list ascii) : Prop :=
  Forall (fun c => is_word c = true) l.


(** What [(?:...)?] in the unpatched pattern of rule 5 can match besides
    nothing, for the element [el]: the scroll-position test. *)
Definition scroll_test (el : string) : string :=
  el ++ ".scrollHeight-" ++ el ++ ".clientHeight-" ++ el
  ++ ".scrollTop<16)&&(".

(** A non-empty run of word characters, as [\w+] matches. *)
Definition ident (w : string) : Prop := w <> "" /\ all_in Word w = true.

End Sem.


(* ================================================================= *)
(** ** The helpers of [main]: hashes and the search for the archive *)

Module Helpers.

(** [struct.unpack_from("<I", blob, offset)[0]]: the four bytes from
    [offset] on as an unsigned number, lowest byte first.  [None] is
    [struct.error], raised when the blob ends before [offset + 4]. *)
Definition unpack_u32_le (blob : string) (offset : nat) : option N :=
  match String.get offset blob, String.get (offset + 1) blob,
        String.get (offset + 2) blob, String.get (offset + 3) blob with
  | Some b0, Some b1, Some b2, Some b3 =>
      Some (N_of_ascii b0 + 256 * N_of_ascii b1 + 65536 * N_of_ascii b2
            + 16777216 * N_of_ascii b3)%N
  | _, _, _, _ => None
  end.

(** The bytes [sha256_asar_header_json] hashes: [blob[16 : 16 + json_len]]
    with [json_len] read at offset 12.  A slice never raises; it ends
    where the blob ends. *)
Definition header_json (blob : string) : option string :=
  match unpack_u32_le blob 12 with
  | Some json_len => Some (slice 16 (16 + N.to_nat json_len) blob)
  | None => None
  end.

Section Hashes.

(** [hashlib.sha256()] as a state [h] with [h.update(data)] and
    [h.hexdigest()]. *)
Variable Hash : Type.
Variable new : Hash.
Variable update : Hash -> string -> Hash.
Variable hexdigest : Hash -> string.

(** [hashlib.sha256(header_json).hexdigest()] *)
Definition sha256_asar_header_json (blob : string) : option string :=
  match header_json blob with
  | Some header => Some (hexdigest (update new header))
  | None => None
  end.

(** [for chunk in iter(lambda: f.read(size), b""): h.update(chunk)] on a
    file whose unread part is [rest]: [f.read(size)] hands out the next
    [size] bytes, or what is left of them, and the loop ends at the
    first empty chunk.  With [size > 0] every round takes at least one
    byte, so [S (length rest)] rounds are enough. *)
Fixpoint update_chunks (fuel size : nat) (h : Hash) (rest : string) : Hash :=
  match fuel with
  | 0 => h
  | S fuel' =>
      match take size rest with
      | EmptyString => h
      | chunk => update_chunks fuel' size (update h chunk) (drop size rest)
      end
  end.

Definition sha256_file_by (size : nat) (content : string) : string :=
  hexdigest (update_chunks (S (String.length content)) size new content).

(** [sha256_file]: chunks of [1024 * 1024] bytes. *)
Definition sha256_file (content : string) : string :=
  sha256_file_by (1024 * 1024) content.

End Hashes.

(** The places [find_default_asar] looks at first, in order. *)
Definition candidates : list string :=
  [ "squashfs-root/resources/app.asar";
    "work/extracted/resources/app.asar";
    "work/extracted/Codex.app/Contents/Resources/app.asar" ].

(** [find_default_asar], given which paths exist and what
    [Path.cwd().glob("**/app.asar")] lists. *)
Definition find_default_asar (path_exists : string -> bool)
           (matches : list string) : result (option string) :=
  match find path_exists candidates with
  | Some candidate => Return (Some candidate)
  | None =>
      match matches with
      | [m] => Return (Some m)
      | _ :: _ :: _ =>
          Raise (RuntimeError
                   ("Multiple app.asar files found. Pass --asar to choose one: "
                    ++ String.concat ", " matches))
      | [] => Return None
      end
  end.

End Helpers.
(* ================================================================= *)
(** ** Sample bundles *)

Module Samples.
Import Rules.

(** Rule 1 in its patched form, closing call [cl] resp. [pt]. *)
Definition drop_reasoning_patched : string :=
  "if(x.type===" ++ reasoning ++ "){b&&cl" ++ explored_call ++ "}b&&cl"
  ++ explored_call.

Definition drop_reasoning_pt : string :=
  "if(x.type===" ++ reasoning ++ "){b&&pt" ++ explored_call ++ "}b&&pt"
  ++ explored_call.

(** Rule 2: one unpatched arrow function, and two of them. *)
Definition collapse_once : string :=
  "cb=()=>{f(c?" ++ preview ++ ":" ++ collapsed ++ ")}".

Definition collapse_twice : string := collapse_once ++ ";" ++ collapse_once.

Definition collapse_patched : string :=
  "cb=()=>{c&&f(" ++ preview ++ ")}".

(** Rule 3: the unpatched assignment with nothing after it. *)
Definition render_unpatched : string :=
  "r=c,i.type===" ++ reasoning ++ "&&(r=null)".

(** Rule 5: the marker its replacement leaves. *)
Definition autoscroll_patched : string := "e.__codexReasoningAutoScrollInit=1".



(** A bundle on which no rule is applied yet: one match of each
    unpatched pattern, the fourth running into the fifth as in the
    bundle the rules were written for. *)
Definition drop_reasoning_unpatched : string :=
  "if(x.type===" ++ reasoning ++ "){b&&b.push(x);continue}b&&cl"
  ++ explored_call.

Definition autoscroll_unpatched : string :=
  "if(!s){f(!1);return}const e=g.current;"
  ++ "e&&(e.scrollHeight-e.clientHeight-e.scrollTop<16)&&"
  ++ "(e.scrollTop=e.scrollHeight)".

Definition unpatched_bundle : string :=
  drop_reasoning_unpatched ++ ";" ++ collapse_once ++ ";"
  ++ render_unpatched ++ "}let x;y[0]!==r;" ++ autoscroll_unpatched.

End Samples.

(** A run to try the script on: the archive extracts to an index page and
    the bundle [js]; every tool succeeds. *)
Module SampleRun.

Definition dir (js : string) : Dir :=
  [ ("webview/index.html",
     "<script type=module src=" ++ q ++ "./assets/index-Ab12.js" ++ q
     ++ "></script>");
    ("webview/assets/index-Ab12.js", js) ].

Definition tools (js : string) : Tools :=
  {| find_default_asar := Return None;
     now := "20260101T000000Z";
     asar_extract := fun _ => Return (dir js);
     node_check := fun _ => Return tt;
     js_beautify := fun text => Return text;
     asar_pack := fun d => Return ("asar:" ++ Script.bundle_text d "webview/assets/index-Ab12.js");
     backup_write := fun _ => Written;
     archive_write := fun _ => Written;
     sha256_file := fun _ => "00";
     sha256_asar_header_json := fun _ => "00" |}.

(** The same with a packer that fails. *)
Definition tools_pack_fails (js : string) : Tools :=
  {| find_default_asar := Return None;
     now := "20260101T000000Z";
     asar_extract := fun _ => Return (dir js);
     node_check := fun _ => Return tt;
     js_beautify := fun text => Return text;
     asar_pack := fun _ => Raise (RuntimeError "Command failed (1): npx -y asar pack");
     backup_write := fun _ => Written;
     archive_write := fun _ => Written;
     sha256_file := fun _ => "00";
     sha256_asar_header_json := fun _ => "00" |}.

Definition real_args : Args :=
  {| asar := Some "app.asar"; dry_run := false; no_beautify := false;
     keep_extracted := false |}.

Definition dry_args : Args :=
  {| asar := Some "app.asar"; dry_run := true; no_beautify := false;
     keep_extracted := false |}.

Definition world : World :=
  {| archive := Some "original archive"; backup := None; tmp_out := None;
     extracted := None; kept := None; stdout := []; stderr := [];
     trace := [] |}.

(** A bundle on which every rule is already applied. *)
Definition all_patched : string :=
  Samples.drop_reasoning_patched ++ ";" ++ Samples.collapse_patched ++ ";"
  ++ "r=c}let x;y[0]!==r;if(!s){return}const e=g.current;"
  ++ Samples.autoscroll_patched.

(** A bundle on which rule 1 is already applied and rule 2 finds
    nothing. *)
Definition second_rule_fails : string := Samples.drop_reasoning_patched.

End SampleRun.

(* ================================================================= *)
(** ** Facts about the matcher *)

Module ReFacts.
Import Re.

Lemma strip_prefix_length p : forall s s',
  strip_prefix p s = Some s' ->
  String.length s = String.length p + String.length s'.
Proof.
  induction p as [|a p IH]; intros s s' H; simpl in *.
  - now inversion H.
  - destruct s as [|b s]; [discriminate|].
    destruct (Ascii.eqb a b); [|discriminate].
    simpl. now rewrite (IH _ _ H).
Qed.

Lemma star_k_calls A c (k : string -> option A) x : forall s,
  star_k c s k = Some x ->
  exists s', String.length s' <= String.length s /\ k s' = Some x.
Proof.
  induction s as [|a s IH]; simpl; intros H.
  - exists EmptyString. auto.
  - destruct (in_class c a).
    + destruct (star_k c s k) eqn:E.
      * inversion H; subst. destruct (IH eq_refl) as (s' & Hl & Hk).
        exists s'. split; [lia | exact Hk].
      * exists (String a s). auto.
    + exists (String a s). auto.
Qed.

(** The continuation only ever sees what is left of the text. *)
Lemma run_calls A r : forall s env (k : string -> Env -> option A) x,
  run r s env k = Some x ->
  exists s' env', String.length s' <= String.length s /\ k s' env' = Some x.
Proof.
  induction r as [p|c|c|c|n r IH|n|r1 IH1 r2 IH2|r1 IH1 r2 IH2|r IH];
    intros s env k x H; simpl in H.
  - destruct (strip_prefix p s) as [s'|] eqn:E; [|discriminate].
    exists s', env. split; [|exact H].
    apply strip_prefix_length in E. lia.
  - destruct s as [|a s]; [discriminate|].
    destruct (in_class c a); [|discriminate].
    exists s, env. simpl. split; [lia | exact H].
  - destruct s as [|a s]; simpl in H; [discriminate|].
    destruct (in_class c a); [|discriminate].
    destruct (star_k_calls _ _ _ H) as (s' & Hl & Hk).
    exists s', env. simpl. split; [lia | exact Hk].
  - destruct (star_k_calls _ _ _ H) as (s' & Hl & Hk).
    exists s', env. auto.
  - destruct (IH _ _ _ _ H) as (s' & env' & Hl & Hk).
    exists s', ((n, consumed s s') :: env'). auto.
  - destruct (lookup n env) as [v|]; [|discriminate].
    destruct (strip_prefix v s) as [s'|] eqn:E; [|discriminate].
    exists s', env. split; [|exact H].
    apply strip_prefix_length in E. lia.
  - destruct (IH1 _ _ _ _ H) as (s1 & env1 & Hl1 & Hk1).
    destruct (IH2 _ _ _ _ Hk1) as (s2 & env2 & Hl2 & Hk2).
    exists s2, env2. split; [lia | exact Hk2].
  - destruct (run r1 s env k) eqn:E.
    + inversion H; subst. eapply IH1; eauto.
    + eapply IH2; eauto.
  - destruct (run r s env k) eqn:E.
    + inversion H; subst. eapply IH; eauto.
    + exists s, env. auto.
Qed.

Lemma match_here_span r s adv len env :
  match_here r s adv = Some (len, env) ->
  len <= String.length s /\ (adv = true -> 0 < len).
Proof.
  unfold match_here. intros H.
  destruct (run_calls _ _ _ _ H) as (s' & env' & Hl & Hk).
  destruct adv; simpl in Hk.
  - destruct (String.length s' =? String.length s) eqn:E; [discriminate|].
    apply Nat.eqb_neq in E. inversion Hk; subst. split; intros; lia.
  - inversion Hk; subst. split; [lia | discriminate].
Qed.

(** A match found from [pos] lies inside the text, and past an empty
    match it ends strictly later. *)
Lemma search_at_span r : forall s pos adv m,
  search_at r s pos adv = Some m ->
  pos <= m_start m /\ m_start m <= m_end m /\
  m_end m <= pos + String.length s /\
  (adv = true -> pos < m_end m).
Proof.
  induction s as [|a s IH]; intros pos adv m H; simpl in H.
  - destruct (match_here r EmptyString adv) as [[len env]|] eqn:E;
      [|discriminate].
    apply match_here_span in E. inversion H; subst; simpl in *.
    repeat split; try lia. intros Ha. destruct E as [_ E]. specialize (E Ha). lia.
  - destruct (match_here r (String a s) adv) as [[len env]|] eqn:E.
    + apply match_here_span in E. inversion H; subst; simpl in *.
      repeat split; try lia. intros Ha. destruct E as [_ E].
      specialize (E Ha). lia.
    + apply IH in H. simpl. repeat split; try lia.
Qed.

Lemma drop_length : forall n s,
  String.length (drop n s) = String.length s - n.
Proof.
  induction n as [|n IH]; intros [|a s]; simpl; auto.
Qed.

Lemma search_from_span r text start adv m :
  start <= String.length text ->
  search_from r text start adv = Some m ->
  start <= m_start m /\ m_start m <= m_end m /\
  m_end m <= String.length text /\
  (adv = true -> start < m_end m).
Proof.
  unfold search_from. intros Hs H. apply search_at_span in H.
  rewrite drop_length in H. repeat split; try lia. apply H.
Qed.

(** The fuel of the scanner is never the reason it stops: any two
    amounts above the measure give the same matches. *)
Lemma scan_loop_fuel r text : forall f1 f2 start (adv : bool),
  start <= String.length text ->
  2 * (String.length text - start) + (if adv then 0 else 1) < f1 ->
  2 * (String.length text - start) + (if adv then 0 else 1) < f2 ->
  scan_loop f1 r text start adv = scan_loop f2 r text start adv.
Proof.
  induction f1 as [|f1 IH]; intros f2 start adv Hs H1 H2; [lia|].
  destruct f2 as [|f2]; [lia|]. simpl.
  destruct (search_from r text start adv) as [m|] eqn:E; [|reflexivity].
  f_equal.
  destruct (search_from_span _ _ _ Hs E) as (Ha & Hb & Hc & Hd).
  destruct (m_end m =? m_start m) eqn:Em.
  - apply Nat.eqb_eq in Em.
    destruct adv.
    + specialize (Hd eq_refl). apply IH; simpl; lia.
    + apply IH; simpl; lia.
  - apply Nat.eqb_neq in Em.
    apply IH; simpl; destruct adv; lia.
Qed.

Corollary scan_fuel r text fuel :
  2 * String.length text + 2 <= fuel ->
  scan_loop fuel r text 0 false = scan r text.
Proof.
  intros H. unfold scan. apply scan_loop_fuel; simpl; lia.
Qed.

(** [finditer] yields nothing exactly when [search] finds nothing. *)
Lemma finditer_nil_iff r text :
  List.length (finditer r text) = 0 <-> search r text = None.
Proof.
  unfold finditer, scan, search.
  replace (2 * String.length text + 2) with (S (2 * String.length text + 1))
    by lia.
  cbn [scan_loop].
  destruct (search_from r text 0 false); cbn [List.length];
    split; intros H; congruence.
Qed.

(** [subn] replaces exactly the matches [finditer] yields. *)
Lemma subn_count r repl text :
  snd (subn r repl text) = List.length (finditer r text).
Proof. reflexivity. Qed.

End ReFacts.

(* ================================================================= *)
(** ** The run of [main] *)

Module RunFacts.
Import Script.

Lemma add_events_nil w : add_events w [] = w.
Proof. destruct w. unfold add_events. simpl. now rewrite app_nil_r. Qed.

Lemma add_events_app w e1 e2 :
  add_events (add_events w e1) e2 = add_events w (e1 ++ e2).
Proof. unfold add_events. simpl. now rewrite app_assoc. Qed.

Lemma add_lines_nil w : add_lines w [] = w.
Proof. destruct w. unfold add_lines. simpl. now rewrite app_nil_r. Qed.

Lemma add_lines_app w l1 l2 :
  add_lines (add_lines w l1) l2 = add_lines w (l1 ++ l2).
Proof. unfold add_lines. simpl. now rewrite app_assoc. Qed.

(** The loop in the monad is the pure loop, plus one recorded call per
    rule it reaches. *)
Lemma run_rules_spec rules dry : forall text sts w,
  run_rules rules dry text sts w =
  (add_events w (rule_events rules dry text), fold_rules rules dry text sts).
Proof.
  induction rules as [|rule rest IH]; intros text sts w.
  - simpl. unfold ret. now rewrite add_events_nil.
  - cbn [run_rules fold_rules rule_events].
    unfold bind, emit, modify, lift.
    destruct (apply_rule text rule dry) as [[text' status]|e].
    + rewrite IH. unfold add_events. simpl. now rewrite <- app_assoc.
    + reflexivity.
Qed.

Lemma print_statuses_spec : forall sts w,
  print_statuses sts w = (add_lines w (map status_line sts), Return tt).
Proof.
  induction sts as [|s rest IH]; intros w.
  - simpl. unfold ret. now rewrite add_lines_nil.
  - cbn [print_statuses map]. unfold bind, print, modify.
    rewrite IH. unfold add_lines. simpl. now rewrite <- app_assoc.
Qed.

Lemma rule_events_only rules dry : forall text ev,
  In ev (rule_events rules dry text) -> exists rule t, ev = EvApplyRule rule t.
Proof.
  induction rules as [|rule rest IH]; intros text ev H; simpl in H;
    [contradiction|].
  destruct H as [H|H]; [eauto|].
  destruct (apply_rule text rule dry) as [[t' st]|e]; [eauto | contradiction].
Qed.

(** A recorded call that raises is the one that ends the loop. *)
Lemma rule_events_raise rules dry : forall t sts rule text e,
  In (EvApplyRule rule text) (rule_events rules dry t) ->
  apply_rule text rule dry = Raise e ->
  fold_rules rules dry t sts = Raise e.
Proof.
  induction rules as [|r rest IH]; intros t sts rule text e H Hr; simpl in *;
    [contradiction|].
  destruct H as [H|H].
  - inversion H; subst. now rewrite Hr.
  - destruct (apply_rule t r dry) as [[t' st]|e']; [eauto | contradiction].
Qed.

Lemma fold_rules_app pre dry : forall rest t sts t' sts',
  fold_rules pre dry t sts = Return (t', sts') ->
  fold_rules (pre ++ rest) dry t sts = fold_rules rest dry t' sts'.
Proof.
  induction pre as [|r pre IH]; intros rest t sts t' sts' H; simpl in *.
  - now inversion H.
  - destruct (apply_rule t r dry) as [[t1 st]|e]; [|discriminate].
    now apply IH.
Qed.

Lemma rule_events_app pre dry : forall rest t sts t' sts',
  fold_rules pre dry t sts = Return (t', sts') ->
  rule_events (pre ++ rest) dry t
  = (rule_events pre dry t ++ rule_events rest dry t')%list.
Proof.
  induction pre as [|r pre IH]; intros rest t sts t' sts' H; simpl in *.
  - now inversion H.
  - destruct (apply_rule t r dry) as [[t1 st]|e]; [|discriminate].
    f_equal. eapply IH; eauto.
Qed.

Lemma applied_rules_app evs1 evs2 :
  applied_rules (evs1 ++ evs2) = (applied_rules evs1 ++ applied_rules evs2)%list.
Proof.
  induction evs1 as [|ev evs1 IH]; simpl; [reflexivity|].
  destruct ev; simpl; now rewrite ?IH.
Qed.

(** When the loop runs through, it has called every rule once. *)
Lemma applied_rules_all rules dry : forall t sts res,
  fold_rules rules dry t sts = Return res ->
  applied_rules (rule_events rules dry t) = rules.
Proof.
  induction rules as [|r rules IH]; intros t sts res H; simpl in *;
    [reflexivity|].
  destruct (apply_rule t r dry) as [[t1 st]|e]; [|discriminate].
  f_equal. eapply IH; eauto.
Qed.

Lemma rule_events_quiet rules dry : forall t,
  Forall (fun ev => is_write ev = false) (rule_events rules dry t).
Proof.
  induction rules as [|r rules IH]; intros t; simpl; constructor;
    [reflexivity|].
  destruct (apply_rule t r dry) as [[t1 st]|e]; [apply IH | constructor].
Qed.

(** Unfolding a run of [main] down to its steps, in the equation [H]
    that names its result and on a world given by its fields. *)
Ltac run_in H :=
  cbv [main_with with_tmpdir patch_in_tmpdir bind lift get emit print eprint
       modify set_extracted set_tmp_out set_kept write_backup write_archive
       write_bytes ret
       add_events add_lines archive backup tmp_out extracted kept stdout
       stderr trace] in H.

Ltac fields :=
  cbv [add_events add_lines archive backup tmp_out extracted kept stdout
       stderr trace fst snd].

(** The end of a run: [H] gives the final world and the result. *)
Ltac end_run H :=
  inversion H; subst; clear H; fields.

Ltac split_in H :=
  repeat match type of H with
  | In _ (_ ++ _) => apply in_app_or in H; destruct H as [H|H]
  | In _ (_ :: _) => destruct H as [H|H]
  | In _ [] => destruct H
  end.

(** Use a hypothesis [H : In ev evs]: find which event of [evs] it is. *)
Ltac use_in H :=
  split_in H;
  try discriminate H;
  try match type of H with
      | In (EvApplyRule _ _) (rule_events _ _ _) => idtac
      | In _ (rule_events _ _ _) =>
          apply rule_events_only in H; destruct H as (? & ? & H);
          discriminate H
      end;
  try match type of H with
      | _ = _ => inversion H; subst; clear H
      end.

Ltac start_leaf :=
  rewrite <- ?app_assoc; simpl;
  first [ eexists; split; [reflexivity|]
        | exists []; split; [now rewrite app_nil_r|] ].

Ltac find_event :=
  simpl; rewrite ?in_app_iff; simpl; eauto 20.

Ltac close_leaf :=
  repeat split; intros;
  unfold wrote_backup, wrote_archive in *;
  repeat match goal with
  | |- ~ _ => intros [? ?]
  | H : In (EvApplyRule _ _) (rule_events _ _ _),
    H' : apply_rule _ _ _ = Raise _ |- _ =>
      pose proof (@rule_events_raise _ _ _ [] _ _ _ H H'); clear H
  | H : In _ _ |- _ => progress (use_in H)
  end;
  try contradiction; try congruence; try reflexivity;
  try match goal with
  | H : ~ (exists _, In _ _) |- _ =>
      solve [exfalso; apply H; eexists; find_event]
  end.

(** A leaf in which the archive was overwritten: [mid] is what ran
    between the syntax check and the repacking. *)
Ltac overwrite_leaf mid :=
  start_leaf; split;
  [ intros ? H; do 5 eexists; exists mid; eexists;
    use_in H; repeat split; try eassumption; try reflexivity;
    try (match goal with
         | H : archive_write _ _ = _ |- _ => rewrite H
         end; reflexivity)
  | close_leaf ].

End RunFacts.

(* ================================================================= *)
(** ** [apply_rule] *)

Lemma unpatched_found_count rule text :
  unpatched_found rule text = false <->
  List.length (Re.finditer (unpatched rule) text) = 0.
Proof.
  unfold unpatched_found. rewrite ReFacts.finditer_nil_iff.
  destruct (Re.search (unpatched rule) text); simpl; split; congruence.
Qed.

Lemma primary_guard_spec rule text :
  primary_guard rule text = true <->
  (exists p, patched rule = Some p /\ Re.search p text <> None) /\
  Re.search (unpatched rule) text = None.
Proof.
  unfold primary_guard, patched_found, unpatched_found.
  rewrite andb_true_iff, negb_true_iff. split.
  - intros [Hp Hu]. split.
    + destruct (patched rule) as [p|]; [|discriminate].
      exists p. split; [reflexivity|].
      destruct (Re.search p text); [discriminate | discriminate].
    + destruct (Re.search (unpatched rule) text); [discriminate | reflexivity].
  - intros [(p & Hp & Hs) Hu]. rewrite Hp, Hu. split; [|reflexivity].
    destruct (Re.search p text); [reflexivity | contradiction].
Qed.

Lemma dry_fallback_primary rule text :
  dry_fallback_guard rule text = true -> primary_guard rule text = true.
Proof.
  unfold dry_fallback_guard, primary_guard.
  rewrite !andb_true_iff, Nat.eqb_eq, negb_true_iff.
  intros [Hc Hp]. split; [exact Hp|]. now apply unpatched_found_count.
Qed.

Lemma real_fallback_primary rule text :
  real_fallback_guard rule text = true -> primary_guard rule text = true.
Proof.
  unfold real_fallback_guard. rewrite ReFacts.subn_count.
  apply dry_fallback_primary.
Qed.

(** What [apply_rule] does once the first test has failed. *)
Lemma apply_rule_dry_not_already rule text :
  primary_guard rule text = false ->
  apply_rule text rule true =
  let count := List.length (Re.finditer (unpatched rule) text) in
  if (Z.of_nat count =? expected_replacements rule)%Z
  then Return (text, "would_apply")
  else Raise (RuntimeError (dry_count_message rule count)).
Proof.
  intros Hg. unfold apply_rule. rewrite Hg.
  destruct (dry_fallback_guard rule text) eqn:Hf.
  - apply dry_fallback_primary in Hf. congruence.
  - cbv zeta.
    destruct (Z.of_nat _ =? expected_replacements rule)%Z; reflexivity.
Qed.

Lemma apply_rule_real_not_already rule text :
  primary_guard rule text = false ->
  apply_rule text rule false =
  let count := List.length (Re.finditer (unpatched rule) text) in
  if (Z.of_nat count =? expected_replacements rule)%Z
  then Return (fst (Re.subn (unpatched rule) (replacement rule) text),
               "applied")
  else Raise (RuntimeError (real_count_message rule count)).
Proof.
  intros Hg. unfold apply_rule. rewrite Hg.
  destruct (real_fallback_guard rule text) eqn:Hf.
  - apply real_fallback_primary in Hf. congruence.
  - destruct (Re.subn (unpatched rule) (replacement rule) text)
      as [new_text replaced] eqn:Hs.
    assert (Hr : replaced = List.length (Re.finditer (unpatched rule) text)).
    { rewrite <- ReFacts.subn_count with (repl := replacement rule).
      now rewrite Hs. }
    subst replaced. cbv zeta. simpl fst.
    destruct (Z.of_nat _ =? expected_replacements rule)%Z; reflexivity.
Qed.

Lemma apply_rule_already rule text dry :
  primary_guard rule text = true ->
  apply_rule text rule dry = Return (text, "already").
Proof. intros Hg. unfold apply_rule. now rewrite Hg. Qed.

(** C1: when the patched matcher of a rule is defined and matches the
    text, and the unpatched matcher does not match it, [apply_rule]
    returns the text as it is with status ["already"], in a dry run and in
    a real run. *)
Theorem C1_patched_only_is_already rule p text dry :
  patched rule = Some p ->
  Re.search p text <> None ->
  Re.search (unpatched rule) text = None ->
  apply_rule text rule dry = Return (text, "already").
Proof.
  intros Hp Hs Hu. apply apply_rule_already.
  apply primary_guard_spec. split; [exists p; auto | exact Hu].
Qed.

Lemma C1_patched_only_is_already_witness :
  apply_rule Samples.autoscroll_patched
             Rules.reasoning_autoscroll_user_scroll_flag true
  = Return (Samples.autoscroll_patched, "already") /\
  apply_rule Samples.autoscroll_patched
             Rules.reasoning_autoscroll_user_scroll_flag false
  = Return (Samples.autoscroll_patched, "already").
Proof.
  split;
    apply (@C1_patched_only_is_already
             Rules.reasoning_autoscroll_user_scroll_flag
             (Re.Lit "__codexReasoningAutoScrollInit"));
    vm_compute; congruence.
Defined.

(** C2, as stated, fails: on a bundle in which both matchers of rule 1
    match, [apply_rule] raises nothing; it reports ["would_apply"] in a
    dry run and ["applied"] in a real run. *)
Lemma C2_both_match_not_an_error :
  unpatched_found Rules.exploration_continuation_drop_reasoning
                  Samples.drop_reasoning_pt = true /\
  patched_found Rules.exploration_continuation_drop_reasoning
                Samples.drop_reasoning_pt = true /\
  apply_rule Samples.drop_reasoning_pt
             Rules.exploration_continuation_drop_reasoning true
  = Return (Samples.drop_reasoning_pt, "would_apply") /\
  apply_rule Samples.drop_reasoning_pt
             Rules.exploration_continuation_drop_reasoning false
  = Return (Samples.drop_reasoning_pt, "applied").
Proof. vm_compute. repeat split. Qed.

(** C2, amended: when the unpatched matcher matches, the patched matcher
    has no say, whether it matches too or not.  [apply_rule] goes by the
    number of unpatched matches alone: with the expected number it
    reports ["would_apply"] (dry run, text as it is) or ["applied"] (real
    run, text after substitution), with any other number it raises the
    match-count error. *)
Theorem C2_both_match_decided_by_count rule text :
  unpatched_found rule text = true ->
  let count := List.length (Re.finditer (unpatched rule) text) in
  apply_rule text rule true =
    (if (Z.of_nat count =? expected_replacements rule)%Z
     then Return (text, "would_apply")
     else Raise (RuntimeError (dry_count_message rule count))) /\
  apply_rule text rule false =
    (if (Z.of_nat count =? expected_replacements rule)%Z
     then Return (fst (Re.subn (unpatched rule) (replacement rule) text),
                  "applied")
     else Raise (RuntimeError (real_count_message rule count))).
Proof.
  intros Hu count.
  assert (Hg : primary_guard rule text = false).
  { unfold primary_guard. rewrite Hu. apply andb_false_r. }
  split.
  - now rewrite apply_rule_dry_not_already.
  - now rewrite apply_rule_real_not_already.
Qed.

Lemma C2_both_match_decided_by_count_witness :
  apply_rule Samples.drop_reasoning_pt
             Rules.exploration_continuation_drop_reasoning true
  = Return (Samples.drop_reasoning_pt, "would_apply") /\
  apply_rule Samples.collapse_twice
             Rules.exploration_no_autocollapse_on_finish false
  = Raise (RuntimeError
      "exploration_no_autocollapse_on_finish: expected 1 replacement(s), got 2").
Proof.
  split.
  - pose proof (@C2_both_match_decided_by_count
                  Rules.exploration_continuation_drop_reasoning
                  Samples.drop_reasoning_pt) as H.
    destruct H as [H _]; [vm_compute; reflexivity|].
    rewrite H. vm_compute. reflexivity.
  - pose proof (@C2_both_match_decided_by_count
                  Rules.exploration_no_autocollapse_on_finish
                  Samples.collapse_twice) as H.
    destruct H as [_ H]; [vm_compute; reflexivity|].
    rewrite H. vm_compute. reflexivity.
Defined.

(** C4: a text that is not classified ["already"] and holds a number of
    unpatched matches other than [expected_replacements] makes
    [apply_rule] raise the match-count error, in a dry run and in a real
    run; the call returns no text at all, substituted or not. *)
Theorem C4_wrong_count_raises rule text :
  primary_guard rule text = false ->
  Z.of_nat (List.length (Re.finditer (unpatched rule) text))
  <> expected_replacements rule ->
  apply_rule text rule true =
    Raise (RuntimeError
             (dry_count_message rule
                (List.length (Re.finditer (unpatched rule) text)))) /\
  apply_rule text rule false =
    Raise (RuntimeError
             (real_count_message rule
                (List.length (Re.finditer (unpatched rule) text)))).
Proof.
  intros Hg Hc. apply Z.eqb_neq in Hc.
  rewrite apply_rule_dry_not_already, apply_rule_real_not_already by exact Hg.
  cbv zeta. rewrite Hc. split; reflexivity.
Qed.

Lemma C4_wrong_count_raises_witness :
  apply_rule Samples.collapse_twice
             Rules.exploration_no_autocollapse_on_finish true
  = Raise (RuntimeError
      "exploration_no_autocollapse_on_finish: expected 1 match(es), found 2")
  /\
  apply_rule Samples.collapse_twice
             Rules.exploration_no_autocollapse_on_finish false
  = Raise (RuntimeError
      "exploration_no_autocollapse_on_finish: expected 1 replacement(s), got 2").
Proof.
  pose proof (@C4_wrong_count_raises
                Rules.exploration_no_autocollapse_on_finish
                Samples.collapse_twice) as H.
  destruct H as [H1 H2]; [vm_compute; reflexivity | vm_compute; discriminate |].
  rewrite H1, H2. vm_compute. split; reflexivity.
Defined.

(** C9: the two later ["already"] branches of [apply_rule] are never
    taken: whenever the guard of either holds, the first test already
    holds.  So [apply_rule] returns ["already"] exactly when the patched
    matcher is defined and matches the text and the unpatched matcher does
    not match it. *)
Theorem C9_fallback_branches_unreachable rule text :
  (dry_fallback_guard rule text = true -> primary_guard rule text = true) /\
  (real_fallback_guard rule text = true -> primary_guard rule text = true) /\
  (forall dry,
      (exists t, apply_rule text rule dry = Return (t, "already")) <->
      ((exists p, patched rule = Some p /\ Re.search p text <> None) /\
       Re.search (unpatched rule) text = None)).
Proof.
  split; [apply dry_fallback_primary|].
  split; [apply real_fallback_primary|].
  intros dry. rewrite <- primary_guard_spec. split.
  - intros [t Ht]. destruct (primary_guard rule text) eqn:Hg; [reflexivity|].
    destruct dry.
    + rewrite apply_rule_dry_not_already in Ht by exact Hg. cbv zeta in Ht.
      destruct (Z.of_nat _ =? _)%Z; discriminate.
    + rewrite apply_rule_real_not_already in Ht by exact Hg. cbv zeta in Ht.
      destruct (Z.of_nat _ =? _)%Z; discriminate.
  - intros Hg. exists text. now apply apply_rule_already.
Qed.

(** C10: [apply_rule] raises or returns one of the three statuses
    ["already"], ["would_apply"], ["applied"]; ["would_apply"] only in a
    dry run, ["applied"] only in a real run; and with ["already"] or
    ["would_apply"] the returned text is the input text. *)
Theorem C10_status_set text rule dry :
  match apply_rule text rule dry with
  | Raise _ => True
  | Return (t, status) =>
      (status = "already" \/ status = "would_apply" \/ status = "applied") /\
      (status = "would_apply" -> dry = true) /\
      (status = "applied" -> dry = false) /\
      (status = "already" \/ status = "would_apply" -> t = text)
  end.
Proof.
  destruct (primary_guard rule text) eqn:Hg.
  - rewrite apply_rule_already by exact Hg.
    repeat split; auto; discriminate.
  - destruct dry.
    + rewrite apply_rule_dry_not_already by exact Hg. cbv zeta.
      destruct (Z.of_nat _ =? _)%Z; [|exact I].
      repeat split; auto; discriminate.
    + rewrite apply_rule_real_not_already by exact Hg. cbv zeta.
      destruct (Z.of_nat _ =? _)%Z; [|exact I].
      repeat split; auto; try discriminate.
      intros [H|H]; discriminate.
Qed.

(* ================================================================= *)
(** ** Dry run against real run *)

Import Script RunFacts.

(** The messages [apply_rule] raises name the rule and the two counts. *)
Lemma apply_rule_raises rule text dry e :
  apply_rule text rule dry = Raise e ->
  let count := List.length (Re.finditer (unpatched rule) text) in
  Z.of_nat count <> expected_replacements rule /\
  e = RuntimeError (if dry then dry_count_message rule count
                    else real_count_message rule count).
Proof.
  intros H count.
  destruct (primary_guard rule text) eqn:Hg.
  - rewrite apply_rule_already in H by exact Hg. discriminate.
  - destruct dry.
    + rewrite apply_rule_dry_not_already in H by exact Hg. cbv zeta in H.
      fold count in H.
      destruct (Z.of_nat count =? expected_replacements rule)%Z eqn:E;
        [discriminate|].
      apply Z.eqb_neq in E. split; [exact E | congruence].
    + rewrite apply_rule_real_not_already in H by exact Hg. cbv zeta in H.
      fold count in H.
      destruct (Z.of_nat count =? expected_replacements rule)%Z eqn:E;
        [discriminate|].
      apply Z.eqb_neq in E. split; [exact E | congruence].
Qed.









(* ================================================================= *)
(** ** Runs of [main] *)

(** C6: a real run whose rules leave the bundle text as it was prints the
    status lines and the no-changes line, returns 0, and does nothing
    else: the bundle is not rewritten, no syntax check, beautifier or
    packer runs, and neither backup nor archive is written. *)
Theorem C6_unchanged_text_writes_nothing
        patches tools args w path orig dir bundle sts :
  dry_run args = false ->
  resolve_asar tools args = Return (Some path) ->
  archive w = Some orig ->
  asar_extract tools orig = Return dir ->
  find_webview_bundle_from_index_html dir = Return bundle ->
  fold_rules patches false (bundle_text dir bundle) []
  = Return (bundle_text dir bundle, sts) ->
  let run := main_with patches tools args w in
  snd run = Return 0%Z /\
  stdout (fst run)
  = (stdout w ++ map status_line sts
     ++ ["No changes to write (all patches already applied)."])%list /\
  archive (fst run) = archive w /\
  backup (fst run) = backup w /\
  tmp_out (fst run) = tmp_out w /\
  kept (fst run) = kept w /\
  trace (fst run)
  = (trace w ++ EvExtract orig
     :: rule_events patches false (bundle_text dir bundle)
     ++ [EvCleanup])%list /\
  Forall (fun ev => is_write ev = false)
         (EvExtract orig
          :: rule_events patches false (bundle_text dir bundle)
          ++ [EvCleanup]).
Proof.
  intros Hd Hr Ha He Hf Hrules run. subst run.
  destruct w as [ar bk tm ex kp so se tr]. simpl in Ha. subst ar.
  destruct (main_with patches tools args
                      (mkWorld (Some orig) bk tm ex kp so se tr))
    as [w' r] eqn:Hrun.
  fields. run_in Hrun.
  rewrite Hr in Hrun. run_in Hrun. rewrite He in Hrun. run_in Hrun.
  rewrite Hf in Hrun. run_in Hrun.
  rewrite Hd, run_rules_spec, Hrules in Hrun. run_in Hrun.
  rewrite print_statuses_spec in Hrun. run_in Hrun.
  rewrite String.eqb_refl in Hrun. end_run Hrun.
  rewrite <- !app_assoc. simpl. repeat split; auto.
  constructor; [reflexivity|]. apply Forall_app. split.
  - apply rule_events_quiet.
  - repeat constructor.
Qed.

Lemma C6_unchanged_text_writes_nothing_witness :
  let run := main (SampleRun.tools SampleRun.all_patched)
                  SampleRun.real_args SampleRun.world in
  snd run = Return 0%Z /\
  stdout (fst run)
  = [ "exploration_continuation_drop_reasoning: already";
      "exploration_no_autocollapse_on_finish: already";
      "show_reasoning_items_in_log: already";
      "reasoning_no_autocollapse_on_finish: already";
      "reasoning_autoscroll_user_scroll_flag: already";
      "No changes to write (all patches already applied)." ] /\
  archive (fst run) = Some "original archive" /\
  backup (fst run) = None.
Proof.
  pose proof (@C6_unchanged_text_writes_nothing
                Rules.patches (SampleRun.tools SampleRun.all_patched)
                SampleRun.real_args SampleRun.world
                "app.asar" "original archive"
                (SampleRun.dir SampleRun.all_patched)
                "webview/assets/index-Ab12.js"
                [ ("exploration_continuation_drop_reasoning", "already");
                  ("exploration_no_autocollapse_on_finish", "already");
                  ("show_reasoning_items_in_log", "already");
                  ("reasoning_no_autocollapse_on_finish", "already");
                  ("reasoning_autoscroll_user_scroll_flag", "already") ]
                eq_refl eq_refl eq_refl eq_refl) as H.
  destruct H as (H1 & H2 & H3 & H4 & _);
    [vm_compute; reflexivity | vm_compute; reflexivity |].
  cbv zeta. unfold main. repeat split; assumption.
Defined.


(** C7: in every run the archive is overwritten only as the last of the
    steps: after every rule has returned, after the syntax check and the
    packer have succeeded, and right after the copy of the original
    bytes to the backup file has completed; the backup then holds the
    original bytes, whether the overwriting itself completes or not.  A
    rule, a syntax check, a beautifier or a packer that fails ends the
    run with its exception, with the archive and the backup file as they
    were and neither copy started.  A backup copy that fails ends the run
    with its exception, with the archive as it was and its overwriting
    not started.  Without the overwriting step the archive keeps its
    bytes, without the backup step no backup appears, and whenever the
    archive is not what it was, the backup file holds what it was. *)
Theorem C7_archive_overwritten_last patches tools args w :
  let run := main_with patches tools args w in
  exists evs, trace (fst run) = (trace w ++ evs)%list /\
  (forall packed, In (EvWriteArchive packed) evs ->
     exists orig js text sts d mid after,
       archive w = Some orig /\
       fold_rules patches false js [] = Return (text, sts) /\
       node_check tools text = Return tt /\
       asar_pack tools d = Return packed /\
       backup_write tools orig = Written /\
       evs = (EvExtract orig :: rule_events patches false js
              ++ EvWriteBundle text :: EvNodeCheck text :: mid
              ++ EvPack d :: EvWriteBackup orig :: EvWriteArchive packed
              :: after)%list /\
       backup (fst run) = Some orig /\
       archive (fst run)
       = fst (write_bytes (Some orig) packed (archive_write tools packed))) /\
  (forall rule text e, In (EvApplyRule rule text) evs ->
     apply_rule text rule (dry_run args) = Raise e ->
     snd run = Raise e /\ archive (fst run) = archive w /\
     backup (fst run) = backup w /\
     ~ wrote_backup evs /\ ~ wrote_archive evs) /\
  (forall text e, In (EvNodeCheck text) evs ->
     node_check tools text = Raise e ->
     snd run = Raise e /\ archive (fst run) = archive w /\
     backup (fst run) = backup w /\
     ~ wrote_backup evs /\ ~ wrote_archive evs) /\
  (forall text e, In (EvBeautify text) evs ->
     js_beautify tools text = Raise e ->
     snd run = Raise e /\ archive (fst run) = archive w /\
     backup (fst run) = backup w /\
     ~ wrote_backup evs /\ ~ wrote_archive evs) /\
  (forall d e, In (EvPack d) evs -> asar_pack tools d = Raise e ->
     snd run = Raise e /\ archive (fst run) = archive w /\
     backup (fst run) = backup w /\
     ~ wrote_backup evs /\ ~ wrote_archive evs) /\
  (forall data e left, In (EvWriteBackup data) evs ->
     backup_write tools data = WriteFailed e left ->
     snd run = Raise e /\ archive (fst run) = archive w /\
     ~ wrote_archive evs) /\
  (~ wrote_archive evs -> archive (fst run) = archive w) /\
  (~ wrote_backup evs -> backup (fst run) = backup w) /\
  (archive (fst run) <> archive w -> backup (fst run) = archive w).
Proof.
  intros run. subst run.
  destruct w as [ar bk tm ex kp so se tr].
  destruct (main_with patches tools args (mkWorld ar bk tm ex kp so se tr))
    as [w' r] eqn:Hrun.
  fields. run_in Hrun.
  destruct (resolve_asar tools args) as [[path|]|e0] eqn:Hres; run_in Hrun.
  2:{ end_run Hrun. start_leaf; close_leaf. }
  2:{ end_run Hrun. start_leaf; close_leaf. }
  destruct ar as [orig|]; run_in Hrun.
  2:{ end_run Hrun. start_leaf; close_leaf. }
  destruct (asar_extract tools orig) as [dir|e0] eqn:Hex; run_in Hrun.
  2:{ end_run Hrun. start_leaf. close_leaf. }
  destruct (find_webview_bundle_from_index_html dir) as [bundle|e0] eqn:Hfind;
    run_in Hrun.
  2:{ end_run Hrun. start_leaf. close_leaf. }
  rewrite run_rules_spec in Hrun.
  destruct (fold_rules patches (dry_run args) (bundle_text dir bundle) [])
    as [[text sts]|e0] eqn:Hfold; run_in Hrun.
  2:{ end_run Hrun. start_leaf. close_leaf. }
  rewrite print_statuses_spec in Hrun. run_in Hrun.
  destruct (dry_run args) eqn:Hdry; run_in Hrun.
  { end_run Hrun. start_leaf. close_leaf. }
  destruct (String.eqb text (bundle_text dir bundle)) eqn:Hsame; run_in Hrun.
  { end_run Hrun. start_leaf. close_leaf. }
  destruct (node_check tools text) as [[]|e0] eqn:Hcheck; run_in Hrun.
  2:{ end_run Hrun. start_leaf. close_leaf. }
  destruct (no_beautify args) eqn:Hnb; run_in Hrun.
  - destruct (asar_pack tools (write_text dir bundle text)) as [packed|e0]
      eqn:Hpack; run_in Hrun.
    2:{ end_run Hrun. start_leaf. close_leaf. }
    destruct (backup_write tools orig) as [|e0 [n|]] eqn:Hbw; run_in Hrun.
    2:{ end_run Hrun. start_leaf. close_leaf. }
    2:{ end_run Hrun. start_leaf. close_leaf. }
    destruct (archive_write tools packed) as [|e0 [n|]] eqn:Haw; run_in Hrun.
    2:{ end_run Hrun. overwrite_leaf (@nil Event). }
    2:{ end_run Hrun. overwrite_leaf (@nil Event). }
    destruct (keep_extracted args) eqn:Hkeep; run_in Hrun.
    2:{ end_run Hrun. overwrite_leaf (@nil Event). }
    destruct kp; run_in Hrun.
    + end_run Hrun. overwrite_leaf (@nil Event).
    + end_run Hrun. overwrite_leaf (@nil Event).
  - destruct (js_beautify tools text) as [pretty|e0] eqn:Hb; run_in Hrun.
    2:{ end_run Hrun. start_leaf. close_leaf. }
    destruct (asar_pack tools _) as [packed|e0] eqn:Hpack; run_in Hrun.
    2:{ end_run Hrun. start_leaf. close_leaf. }
    destruct (backup_write tools orig) as [|e0 [n|]] eqn:Hbw; run_in Hrun.
    2:{ end_run Hrun. start_leaf. close_leaf. }
    2:{ end_run Hrun. start_leaf. close_leaf. }
    destruct (archive_write tools packed) as [|e0 [n|]] eqn:Haw; run_in Hrun.
    2:{ end_run Hrun. overwrite_leaf [EvBeautify text]. }
    2:{ end_run Hrun. overwrite_leaf [EvBeautify text]. }
    destruct (keep_extracted args) eqn:Hkeep; run_in Hrun.
    2:{ end_run Hrun. overwrite_leaf [EvBeautify text]. }
    destruct kp; run_in Hrun.
    + end_run Hrun. overwrite_leaf [EvBeautify text].
    + end_run Hrun. overwrite_leaf [EvBeautify text].
Qed.

(** C8, as stated, fails: when the second rule raises, nothing has been
    printed, although the first rule had returned ["already"]; the run
    ends with the exception alone. *)
Lemma C8_prior_statuses_not_reported :
  let run := main (SampleRun.tools SampleRun.second_rule_fails)
                  SampleRun.real_args SampleRun.world in
  apply_rule SampleRun.second_rule_fails
             Rules.exploration_continuation_drop_reasoning false
  = Return (SampleRun.second_rule_fails, "already") /\
  snd run
  = Raise (RuntimeError
      "exploration_no_autocollapse_on_finish: expected 1 replacement(s), got 0")
  /\
  stdout (fst run) = [] /\
  ~ In "exploration_continuation_drop_reasoning: already" (stdout (fst run)).
Proof.
  vm_compute. repeat split; auto.
Qed.

(** C8, amended: when a rule raises, the run ends at once with that
    exception, whose message names the rule, the expected count and the
    count found.  No later rule is called; no line is printed, so the
    statuses of the rules before it are not reported; and the bundle, the
    packed file, the backup and the archive are not written. *)
Theorem C8_failing_rule_ends_run
        patches tools args w path orig dir bundle before rule later
        text sts e :
  resolve_asar tools args = Return (Some path) ->
  archive w = Some orig ->
  asar_extract tools orig = Return dir ->
  find_webview_bundle_from_index_html dir = Return bundle ->
  patches = (before ++ rule :: later)%list ->
  fold_rules before (dry_run args) (bundle_text dir bundle) []
  = Return (text, sts) ->
  apply_rule text rule (dry_run args) = Raise e ->
  let run := main_with patches tools args w in
  let count := List.length (Re.finditer (unpatched rule) text) in
  snd run = Raise e /\
  e = RuntimeError (if dry_run args then dry_count_message rule count
                    else real_count_message rule count) /\
  (exists evs,
      trace (fst run) = (trace w ++ EvExtract orig :: evs ++ [EvCleanup])%list /\
      applied_rules evs = (before ++ [rule])%list /\
      Forall (fun ev => is_write ev = false) evs) /\
  stdout (fst run) = stdout w /\
  stderr (fst run) = stderr w /\
  archive (fst run) = archive w /\
  backup (fst run) = backup w /\
  tmp_out (fst run) = tmp_out w.
Proof.
  intros Hr Ha He Hf Hp Hbefore Hraise run count. subst run patches.
  assert (Hfold : fold_rules (before ++ rule :: later) (dry_run args)
                             (bundle_text dir bundle) []
                  = Raise e).
  { rewrite (@fold_rules_app _ _ (rule :: later) _ _ _ _ Hbefore). simpl.
    now rewrite Hraise. }
  assert (Hev : rule_events (before ++ rule :: later) (dry_run args)
                            (bundle_text dir bundle)
                = (rule_events before (dry_run args) (bundle_text dir bundle)
                   ++ [EvApplyRule rule text])%list).
  { rewrite (@rule_events_app _ _ (rule :: later) _ _ _ _ Hbefore). simpl.
    now rewrite Hraise. }
  destruct w as [ar bk tm ex kp so se tr]. simpl in Ha. subst ar.
  destruct (main_with (before ++ rule :: later) tools args
                      (mkWorld (Some orig) bk tm ex kp so se tr))
    as [w' r] eqn:Hrun.
  fields. run_in Hrun.
  rewrite Hr in Hrun. run_in Hrun. rewrite He in Hrun. run_in Hrun.
  rewrite Hf in Hrun. run_in Hrun.
  rewrite run_rules_spec, Hfold in Hrun. run_in Hrun. end_run Hrun.
  split; [reflexivity|].
  split; [apply (@apply_rule_raises _ _ _ _ Hraise)|].
  split.
  { exists (rule_events (before ++ rule :: later) (dry_run args)
                        (bundle_text dir bundle)).
    split; [now rewrite <- !app_assoc|].
    split.
    - rewrite Hev, applied_rules_app. simpl.
      now rewrite (@applied_rules_all _ _ _ _ _ Hbefore).
    - apply rule_events_quiet. }
  repeat split; auto.
Qed.

Lemma C8_failing_rule_ends_run_witness :
  let run := main (SampleRun.tools SampleRun.second_rule_fails)
                  SampleRun.real_args SampleRun.world in
  snd run
  = Raise (RuntimeError
      "exploration_no_autocollapse_on_finish: expected 1 replacement(s), got 0")
  /\ stdout (fst run) = [] /\ archive (fst run) = Some "original archive".
Proof.
  pose proof (@C8_failing_rule_ends_run
                Rules.patches (SampleRun.tools SampleRun.second_rule_fails)
                SampleRun.real_args SampleRun.world
                "app.asar" "original archive"
                (SampleRun.dir SampleRun.second_rule_fails)
                "webview/assets/index-Ab12.js"
                [Rules.exploration_continuation_drop_reasoning]
                Rules.exploration_no_autocollapse_on_finish
                [ Rules.show_reasoning_items_in_log;
                  Rules.reasoning_no_autocollapse_on_finish;
                  Rules.reasoning_autoscroll_user_scroll_flag ]
                SampleRun.second_rule_fails
                [("exploration_continuation_drop_reasoning", "already")]
                (RuntimeError
      "exploration_no_autocollapse_on_finish: expected 1 replacement(s), got 0")
                eq_refl eq_refl eq_refl eq_refl eq_refl) as H.
  destruct H as (H1 & _ & _ & H2 & _ & H3 & _);
    [vm_compute; reflexivity | vm_compute; reflexivity |].
  cbv zeta. unfold main. repeat split; assumption.
Defined.

(* ================================================================= *)
(** ** The search finds a match exactly when there is one *)

Module SemFacts.
Import Re Sem.

Lemma sapp_assoc (a b c : string) : (a ++ b) ++ c = a ++ b ++ c.
Proof. induction a as [|x a IH]; simpl; [reflexivity | now rewrite IH]. Qed.

Lemma sapp_nil_r (a : string) : a ++ "" = a.
Proof. induction a as [|x a IH]; simpl; [reflexivity | now rewrite IH]. Qed.

Lemma length_sapp (a b : string) :
  String.length (a ++ b) = String.length a + String.length b.
Proof. induction a as [|x a IH]; simpl; [reflexivity | now rewrite IH]. Qed.

Lemma strip_prefix_app p s : strip_prefix p (p ++ s) = Some s.
Proof.
  induction p as [|a p IH]; simpl; [reflexivity|].
  now rewrite Ascii.eqb_refl.
Qed.

Lemma strip_prefix_inv p : forall s s',
  strip_prefix p s = Some s' -> s = p ++ s'.
Proof.
  induction p as [|a p IH]; intros s s' H; simpl in *.
  - now inversion H.
  - destruct s as [|b s]; [discriminate|].
    destruct (Ascii.eqb a b) eqn:E; [|discriminate].
    apply Ascii.eqb_eq in E. subst b. f_equal. now apply IH.
Qed.

Lemma take_app x s : take (String.length x) (x ++ s) = x.
Proof. induction x as [|a x IH]; simpl; [now destruct s | now rewrite IH]. Qed.

Lemma drop_app x s : drop (String.length x) (x ++ s) = s.
Proof. induction x as [|a x IH]; simpl; [now destruct s | exact IH]. Qed.

Lemma take_drop n : forall s, take n s ++ drop n s = s.
Proof.
  induction n as [|n IH]; intros [|a s]; simpl; try reflexivity.
  now rewrite IH.
Qed.

Lemma take_length n : forall s,
  n <= String.length s -> String.length (take n s) = n.
Proof.
  induction n as [|n IH]; intros [|a s] H; simpl in *; try reflexivity;
    try lia.
  rewrite IH; lia.
Qed.

Lemma consumed_app x s : consumed (x ++ s) s = x.
Proof.
  unfold consumed. rewrite length_sapp.
  replace (String.length x + String.length s - String.length s)
    with (String.length x) by lia.
  apply take_app.
Qed.

(** *** Soundness: what the matcher hands on, the pattern matches *)

Lemma star_k_sound A c (k : string -> option A) res : forall s,
  star_k c s k = Some res ->
  exists x s', s = x ++ s' /\ all_in c x = true /\ k s' = Some res.
Proof.
  induction s as [|a s IH]; simpl; intros H.
  - exists "", "". auto.
  - destruct (in_class c a) eqn:Ha.
    + destruct (star_k c s k) eqn:E.
      * inversion H; subst. destruct (IH eq_refl) as (x & s' & Hs & Hx & Hk).
        exists (String a x), s'. simpl. rewrite Ha, Hx, Hs. auto.
      * exists "", (String a s). auto.
    + exists "", (String a s). auto.
Qed.

Lemma run_sound A r : forall s env (k : string -> Env -> option A) res,
  run r s env k = Some res ->
  exists x s' env',
    s = x ++ s' /\ Matches r env x env' /\ k s' env' = Some res.
Proof.
  induction r as [p|c|c|c|n r IH|n|r1 IH1 r2 IH2|r1 IH1 r2 IH2|r IH];
    intros s env k res H; simpl in H.
  - destruct (strip_prefix p s) as [s'|] eqn:E; [|discriminate].
    apply strip_prefix_inv in E. exists p, s', env.
    repeat split; auto. constructor.
  - destruct s as [|a s]; [discriminate|].
    destruct (in_class c a) eqn:Ha; [|discriminate].
    exists (String a ""), s, env. repeat split; auto. now constructor.
  - destruct s as [|a s]; simpl in H; [discriminate|].
    destruct (in_class c a) eqn:Ha; [|discriminate].
    destruct (star_k_sound _ _ _ H) as (x & s' & Hs & Hx & Hk).
    exists (String a x), s', env. simpl. rewrite Hs.
    repeat split; auto. now constructor.
  - destruct (star_k_sound _ _ _ H) as (x & s' & Hs & Hx & Hk).
    exists x, s', env. repeat split; auto. now constructor.
  - destruct (IH _ _ _ _ H) as (x & s' & env' & Hs & Hm & Hk).
    exists x, s', ((n, x) :: env'). subst s. rewrite consumed_app in Hk.
    repeat split; auto. now constructor.
  - destruct (lookup n env) as [v|] eqn:El; [|discriminate].
    destruct (strip_prefix v s) as [s'|] eqn:E; [|discriminate].
    apply strip_prefix_inv in E. exists v, s', env.
    repeat split; auto. now constructor.
  - destruct (IH1 _ _ _ _ H) as (x1 & s1 & env1 & Hs1 & Hm1 & Hk1).
    destruct (IH2 _ _ _ _ Hk1) as (x2 & s2 & env2 & Hs2 & Hm2 & Hk2).
    exists (x1 ++ x2), s2, env2. subst. rewrite sapp_assoc.
    repeat split; auto. econstructor; eauto.
  - destruct (run r1 s env k) eqn:E.
    + inversion H; subst.
      destruct (IH1 _ _ _ _ E) as (x & s' & env' & Hs & Hm & Hk).
      exists x, s', env'. repeat split; auto. now apply MAltL.
    + destruct (IH2 _ _ _ _ H) as (x & s' & env' & Hs & Hm & Hk).
      exists x, s', env'. repeat split; auto. now apply MAltR.
  - destruct (run r s env k) eqn:E.
    + inversion H; subst.
      destruct (IH _ _ _ _ E) as (x & s' & env' & Hs & Hm & Hk).
      exists x, s', env'. repeat split; auto. now apply MOptSome.
    + exists "", s, env. repeat split; auto. apply MOptNone.
Qed.

(** *** Completeness: where the pattern matches, the matcher returns *)

Lemma star_k_complete A c (k : string -> option A) s' :
  k s' <> None -> forall x,
  all_in c x = true -> star_k c (x ++ s') k <> None.
Proof.
  intros Hk. induction x as [|a x IH]; simpl; intros Hx.
  - destruct s' as [|b s']; simpl; [exact Hk|].
    destruct (in_class c b); [|exact Hk].
    destruct (star_k c s' k); [discriminate | exact Hk].
  - apply andb_true_iff in Hx. destruct Hx as [Ha Hx]. rewrite Ha.
    specialize (IH Hx). destruct (star_k c (x ++ s') k);
      [discriminate | contradiction].
Qed.

Lemma run_complete A r env x env' :
  Matches r env x env' ->
  forall s' (k : string -> Env -> option A),
    k s' env' <> None -> run r (x ++ s') env k <> None.
Proof.
  induction 1 as [p env|c a env Ha|c a x env Ha Hx|c x env Hx
                  |n r env x env' Hm IH|n env v Hl
                  |r1 r2 env x1 env1 x2 env2 Hm1 IH1 Hm2 IH2
                  |r1 r2 env x env' Hm IH|r1 r2 env x env' Hm IH
                  |r env x env' Hm IH|r env];
    intros s' k Hk; simpl.
  - now rewrite strip_prefix_app.
  - now rewrite Ha.
  - rewrite Ha. now apply star_k_complete.
  - now apply star_k_complete.
  - apply IH. now rewrite consumed_app.
  - now rewrite Hl, strip_prefix_app.
  - rewrite sapp_assoc. apply IH1. now apply IH2.
  - specialize (IH s' k Hk). destruct (run r1 (x ++ s') env k);
      [discriminate | contradiction].
  - destruct (run r1 (x ++ s') env k); [discriminate | now apply IH].
  - specialize (IH s' k Hk). destruct (run r (x ++ s') env k);
      [discriminate | contradiction].
  - destruct (run r s' env k); [discriminate | exact Hk].
Qed.

End SemFacts.

(* ================================================================= *)
(** ** Where [search], [finditer] and [subn] find their matches *)

Module ScanFacts.
Import Re Sem SemFacts.

(** One attempt succeeds exactly when the pattern matches a prefix. *)
Lemma match_here_sound r u len env :
  match_here r u false = Some (len, env) ->
  exists x b, u = x ++ b /\ len = String.length x /\ Matches r [] x env.
Proof.
  unfold match_here. intros H.
  destruct (run_sound _ _ _ _ H) as (x & s' & env' & Hu & Hm & Hk).
  simpl in Hk. inversion Hk; subst. exists x, s'.
  repeat split; auto. rewrite length_sapp. lia.
Qed.

Lemma match_here_complete r x b env :
  Matches r [] x env -> match_here r (x ++ b) false <> None.
Proof.
  intros Hm. unfold match_here.
  apply (run_complete Hm). simpl. discriminate.
Qed.

(** The search returns the leftmost place where the pattern matches. *)
Lemma search_at_some r : forall s pos m,
  search_at r s pos false = Some m ->
  exists a x b,
    s = a ++ x ++ b /\
    m_start m = pos + String.length a /\
    m_end m = pos + String.length a + String.length x /\
    Matches r [] x (m_groups m) /\
    forall a1 a2, a = a1 ++ a2 -> a2 <> "" ->
                  match_here r (a2 ++ x ++ b) false = None.
Proof.
  induction s as [|c s IH]; intros pos m H; simpl in H.
  - destruct (match_here r "" false) as [[len env]|] eqn:E; [|discriminate].
    inversion H; subst; clear H.
    destruct (match_here_sound _ _ E) as (x & b & Hu & Hl & Hm).
    exists "", x, b. simpl. repeat split; auto; try lia.
    intros a1 a2 Ha Hne. destruct a1; destruct a2; simpl in Ha;
      try discriminate. contradiction.
  - destruct (match_here r (String c s) false) as [[len env]|] eqn:E.
    + inversion H; subst; clear H.
      destruct (match_here_sound _ _ E) as (x & b & Hu & Hl & Hm).
      exists "", x, b. simpl. repeat split; auto; try lia.
      intros a1 a2 Ha Hne. destruct a1; destruct a2; simpl in Ha;
        try discriminate. contradiction.
    + destruct (IH _ _ H) as (a & x & b & Hs & Hst & Hen & Hm & Hleft).
      exists (String c a), x, b. simpl. rewrite Hs.
      repeat split; auto; try lia.
      intros a1 a2 Ha Hne. destruct a1 as [|c1 a1]; simpl in Ha.
      * subst a2. simpl. rewrite <- Hs. exact E.
      * inversion Ha; subst. exact (Hleft a1 a2 eq_refl Hne).
Qed.

Lemma search_at_none r : forall s pos,
  search_at r s pos false = None ->
  forall a u, s = a ++ u -> match_here r u false = None.
Proof.
  induction s as [|c s IH]; intros pos H a u Hs; simpl in H.
  - destruct a; [|discriminate]. simpl in Hs. subst u.
    destruct (match_here r "" false) as [[len env]|]; [discriminate|].
    reflexivity.
  - destruct (match_here r (String c s) false) as [[len env]|] eqn:E;
      [discriminate|].
    destruct a as [|c1 a]; simpl in Hs.
    + now subst u.
    + inversion Hs; subst. eapply IH; eauto.
Qed.

Lemma search_at_none_intro r : forall s pos,
  (forall a u, s = a ++ u -> match_here r u false = None) ->
  search_at r s pos false = None.
Proof.
  induction s as [|c s IH]; intros pos H; simpl.
  - now rewrite (H "" "" eq_refl).
  - rewrite (H "" (String c s) eq_refl). apply IH.
    intros a u Hs. apply (H (String c a)). simpl. now rewrite Hs.
Qed.

(** [search] finds something exactly when the pattern occurs. *)
Lemma search_none_iff r text : search r text = None <-> ~ occurs r text.
Proof.
  unfold search, search_from. simpl. split.
  - intros H (n & a & x & b & env & Ht & _ & Hm).
    apply (match_here_complete b) in Hm.
    apply Hm. eapply search_at_none; eauto.
  - intros Hno. apply search_at_none_intro. intros a u Hs.
    destruct (match_here r u false) as [[len env]|] eqn:E; [|reflexivity].
    exfalso. apply Hno.
    destruct (match_here_sound _ _ E) as (x & b & Hu & Hl & Hm).
    exists (String.length a), a, x, b, env. subst. auto.
Qed.

Lemma search_some_iff r text : search r text <> None <-> occurs r text.
Proof.
  split.
  - intros H. destruct (search r text) as [m|] eqn:E; [|contradiction].
    unfold search, search_from in E. simpl in E.
    destruct (search_at_some _ _ _ E) as (a & x & b & Hs & _ & _ & Hm & _).
    exists (String.length a), a, x, b, (m_groups m). auto.
  - intros Ho H. apply search_none_iff in H. contradiction.
Qed.

Lemma truthy_search r text : truthy (search r text) = true <-> occurs r text.
Proof.
  rewrite <- search_some_iff.
  destruct (search r text); simpl; split; congruence.
Qed.

Lemma truthy_search_false r text :
  truthy (search r text) = false <-> ~ occurs r text.
Proof.
  rewrite <- search_none_iff.
  destruct (search r text); simpl; split; congruence.
Qed.

(** A text with exactly one match of a pattern that matches no empty
    string: the match is the one [search] finds, nothing occurs before
    it or after it, and [subn] replaces just that piece. *)
Lemma single_match r repl text :
  List.length (finditer r text) = 1 ->
  (forall x env, Matches r [] x env -> x <> "") ->
  exists a x b m,
    text = a ++ x ++ b /\
    search r text = Some m /\
    Matches r [] x (m_groups m) /\
    ~ occurs r a /\
    ~ occurs r b /\
    fst (subn r repl text) = a ++ repl m ++ b.
Proof.
  intros Hlen Hne. unfold subn. unfold finditer, scan in *.
  replace (2 * String.length text + 2)
    with (S (S (2 * String.length text))) in * by lia.
  cbn [scan_loop] in *.
  destruct (search_from r text 0 false) as [m|] eqn:E1; [|discriminate].
  assert (Hfirst : search r text = Some m) by exact E1.
  unfold search_from in E1. simpl in E1.
  destruct (search_at_some _ _ _ E1) as (a & x & b & Ht & Hst & Hen & Hm & Hleft).
  simpl in Hst, Hen.
  assert (Hx : x <> "") by (eapply Hne; eauto).
  assert (Hadv : (m_end m =? m_start m) = false).
  { apply Nat.eqb_neq. destruct x; [contradiction|]. simpl in Hen. lia. }
  rewrite Hadv in *.
  destruct (search_from r text (m_end m) false) as [m2|] eqn:E2;
    [simpl in Hlen; discriminate|].
  assert (Hb : drop (m_end m) text = b).
  { rewrite Hen, Ht, <- length_sapp, <- sapp_assoc. apply drop_app. }
  unfold search_from in E2. rewrite Hb in E2.
  exists a, x, b, m. repeat split; auto.
  - intros (n & a1 & y & d & env & Ha & _ & Hmy).
    assert (Hy : y ++ d <> "").
    { pose proof (Hne _ _ Hmy). destruct y; [contradiction | discriminate]. }
    specialize (Hleft a1 (y ++ d) Ha Hy). rewrite sapp_assoc in Hleft.
    now apply (match_here_complete (d ++ x ++ b)) in Hmy.
  - intros (n & a' & y & b' & env & Hb' & _ & Hmy).
    apply (match_here_complete b') in Hmy. apply Hmy.
    eapply search_at_none; eauto.
  - simpl. unfold slice. simpl. rewrite Hb, Hst, Nat.sub_0_r.
    now rewrite Ht, take_app.
Qed.

End ScanFacts.

(* ================================================================= *)
(** ** Texts as lists of characters *)

Module Chars.
Import Re Sem SemFacts.

Lemma chars_cons (c : ascii) (a : string) :
  chars (String c a) = c :: chars a.
Proof. reflexivity. Qed.

Lemma chars_app (a b : string) : chars (a ++ b) = (chars a ++ chars b)%list.
Proof.
  unfold chars. induction a as [|x a IH]; simpl;
    [reflexivity | now rewrite IH].
Qed.

Lemma chars_inj (a b : string) : chars a = chars b -> a = b.
Proof.
  unfold chars. intros H.
  rewrite <- (string_of_list_ascii_of_string a),
          <- (string_of_list_ascii_of_string b).
  now rewrite H.
Qed.


Lemma word_chars (x : string) : all_in Word x = true -> word (chars x).
Proof.
  unfold chars.
  induction x as [|a x IH]; simpl; intros H; [constructor|].
  apply andb_true_iff in H. destruct H as [Ha Hx].
  constructor; [exact Ha | now apply IH].
Qed.




(** *** The last character *)






(** *** Two texts cut at a character that occurs once in each *)








End Chars.

(* ================================================================= *)
(** ** Applying a rule twice *)

Module Twice.
Import Re Sem SemFacts ScanFacts Chars.




(** What ["applied"] says about the text, for a rule that expects one
    match and whose pattern matches no empty string: the text holds the
    match that [search] finds and no other, and the new text has the
    replacement in its place. *)
Lemma applied_shape rule text text' :
  expected_replacements rule = 1%Z ->
  (forall x env, Matches (unpatched rule) [] x env -> x <> "") ->
  apply_rule text rule false = Return (text', "applied") ->
  exists a x b m,
    text = a ++ x ++ b /\
    search (unpatched rule) text = Some m /\
    Matches (unpatched rule) [] x (m_groups m) /\
    ~ occurs (unpatched rule) a /\ ~ occurs (unpatched rule) b /\
    text' = a ++ replacement rule m ++ b.
Proof.
  intros Hone Hne Happ.
  destruct (primary_guard rule text) eqn:Hg.
  { rewrite apply_rule_already in Happ by exact Hg. discriminate. }
  rewrite apply_rule_real_not_already in Happ by exact Hg.
  cbv zeta in Happ. rewrite Hone in Happ.
  destruct (Z.of_nat (List.length (finditer (unpatched rule) text)) =? 1)%Z
    eqn:Hcount; [|discriminate].
  apply Z.eqb_eq in Hcount.
  assert (Hlen : List.length (finditer (unpatched rule) text) = 1) by lia.
  assert (Htext : fst (subn (unpatched rule) (replacement rule) text) = text')
    by congruence.
  clear Happ.
  destruct (@single_match (unpatched rule) (replacement rule) text Hlen Hne)
    as (a & x & b & m & Ht & Hs & Hm & Ha & Hb & Hsub).
  rewrite Hsub in Htext. exists a, x, b, m. auto 10.
Qed.



End Twice.

(* ================================================================= *)
(** ** Tools for the declared rules *)

Module RuleTools.
Import Re Sem SemFacts ScanFacts Chars Twice.

Lemma chars_empty : chars "" = [].
Proof. reflexivity. Qed.

Lemma word_cons a x :
  in_class Word a = true -> all_in Word x = true ->
  word (chars (String a x)) /\ chars (String a x) <> [].
Proof.
  intros Ha Hx. split; [|discriminate].
  apply word_chars. simpl in *. now rewrite Ha, Hx.
Qed.

Lemma word_app (l1 l2 : list ascii) : word l1 -> word l2 -> word (l1 ++ l2).
Proof. apply Forall_app_intro || (intros; apply Forall_app; auto). Qed.

(** Taking a match of a concrete pattern apart. *)
Ltac inv_matches :=
  repeat match goal with
  | H : Matches (Seq _ _) _ _ _ |- _ => inversion H; subst; clear H
  | H : Matches (Lit _) _ _ _ |- _ => inversion H; subst; clear H
  | H : Matches (Group _ _) _ _ _ |- _ => inversion H; subst; clear H
  | H : Matches (Plus _) _ _ _ |- _ => inversion H; subst; clear H
  | H : Matches (Alt _ _) _ _ _ |- _ => inversion H; subst; clear H
  | H : Matches (Opt _) _ _ _ |- _ => inversion H; subst; clear H
  | H : Matches (Backref _) _ _ _ |- _ =>
      inversion H; subst; clear H;
      match goal with
      | L : lookup _ _ = Some _ |- _ =>
          simpl in L; injection L as L; subst
      end
  end.





(** The literals of the rules, spelled out. *)
Ltac open_lits :=
  unfold Rules.preview, Rules.collapsed, Rules.reasoning,
    Rules.explored_call, q, dquote in *.

Ltac norm_chars :=
  open_lits; simpl;
  repeat (rewrite ?chars_cons, ?chars_app, ?chars_empty); simpl.

Ltac eq_chars :=
  norm_chars; repeat (rewrite <- app_assoc; simpl); reflexivity.


End RuleTools.

(* ================================================================= *)
(** ** Rule 4, [reasoning_no_autocollapse_on_finish], applied twice *)

Module Rule4.
Import Re Sem SemFacts ScanFacts Chars Twice RuleTools.
Lemma rule4_shape y env :
  Matches (unpatched Rules.reasoning_no_autocollapse_on_finish) [] y env ->
  exists s f el rf,
    y = "if(!" ++ s ++ "){" ++ f ++ "(!1);return}const " ++ el ++ "=" ++ rf
        ++ ".current;" /\
    env = [("ref", rf); ("el", el); ("setter", f); ("stream", s)] /\
    ident s /\ ident f /\ ident el /\ ident rf.
Proof.
  intros H.
  cbv [unpatched Rules.reasoning_no_autocollapse_on_finish Rules.w] in H.
  inv_matches.
  do 4 eexists. split; [reflexivity|]. split; [reflexivity|].
  repeat split; try discriminate; simpl in *;
    repeat match goal with H : _ = true |- _ => rewrite H; clear H end;
    reflexivity.
Qed.


End Rule4.

(* ================================================================= *)
(** ** Rule 2, [exploration_no_autocollapse_on_finish], applied twice *)

Module Rule2.
Import Re Sem SemFacts ScanFacts Chars Twice RuleTools.

Lemma rule2_shape y env :
  Matches (unpatched Rules.exploration_no_autocollapse_on_finish) [] y env ->
  exists cb setter cond,
    y = cb ++ "=()=>{" ++ setter ++ "(" ++ cond
        ++ ("?" ++ Rules.preview ++ ":" ++ Rules.collapsed ++ ")}") /\
    env = [("cond", cond); ("setter", setter); ("cb", cb)] /\
    ident cb /\ ident setter /\ ident cond.
Proof.
  intros H.
  cbv [unpatched Rules.exploration_no_autocollapse_on_finish Rules.w] in H.
  inv_matches.
  do 3 eexists. split; [reflexivity|]. split; [reflexivity|].
  repeat split; try discriminate; simpl in *;
    repeat match goal with H : _ = true |- _ => rewrite H; clear H end;
    reflexivity.
Qed.


End Rule2.

(* ================================================================= *)
(** ** Rule 1, [exploration_continuation_drop_reasoning], applied twice *)

Module Rule1.
Import Re Sem SemFacts ScanFacts Chars Twice RuleTools.

(** What a match of each kind of pattern is made of. *)
Lemma inv_seq r1 r2 env x env' :
  Matches (Seq r1 r2) env x env' ->
  exists x1 x2 env1, x = x1 ++ x2 /\ Matches r1 env x1 env1 /\
                     Matches r2 env1 x2 env'.
Proof. intros H. inversion H; subst. eauto 6. Qed.

Lemma inv_lit p env x env' : Matches (Lit p) env x env' -> x = p /\ env' = env.
Proof. intros H. inversion H; subst. auto. Qed.

Lemma inv_word n env x env' :
  Matches (Rules.w n) env x env' -> env' = (n, x) :: env /\ ident x.
Proof.
  unfold Rules.w. intros H. inversion H; subst.
  match goal with H' : Matches (Plus _) _ _ _ |- _ => inversion H'; subst end.
  split; [reflexivity|]. split; [discriminate|].
  simpl. match goal with H1 : in_class _ _ = true, H2 : all_in _ _ = true |- _ =>
    simpl in H1; rewrite H1, H2 end. reflexivity.
Qed.

Lemma inv_backref n env x env' :
  Matches (Backref n) env x env' -> env' = env /\ lookup n env = Some x.
Proof. intros H. inversion H; subst. auto. Qed.

Lemma inv_alt r1 r2 env x env' :
  Matches (Alt r1 r2) env x env' ->
  Matches r1 env x env' \/ Matches r2 env x env'.
Proof. intros H. inversion H; subst; auto. Qed.

Ltac step :=
  match goal with
  | H : Matches (Seq _ _) _ _ _ |- _ =>
      apply inv_seq in H; destruct H as (? & ? & ? & ? & ? & ?); subst
  | H : Matches (Lit _) _ _ _ |- _ =>
      apply inv_lit in H; destruct H; subst
  | H : Matches (Rules.w _) _ _ _ |- _ =>
      apply inv_word in H; destruct H as [? ?]; subst
  | H : Matches (Backref _) (_ :: _) _ _ |- _ =>
      apply inv_backref in H; destruct H as [? H]; subst;
      simpl in H; injection H as H; subst
  | H : Matches (Alt _ _) _ _ _ |- _ =>
      apply inv_alt in H; destruct H as [H|H]
  end.

Lemma rule1_shape y env :
  Matches (unpatched Rules.exploration_continuation_drop_reasoning) [] y env ->
  exists item buf close body,
    y = "if(" ++ item ++ (".type===" ++ Rules.reasoning ++ "){") ++ buf
        ++ "&&" ++ body ++ "}" ++ buf ++ "&&" ++ close
        ++ Rules.explored_call /\
    env = [("close", close); ("buf", buf); ("item", item)] /\
    ident item /\ ident buf /\ ident close /\
    (body = buf ++ ".push(" ++ item ++ ");continue"
     \/ body = "pt" ++ Rules.explored_call).
Proof.
  intros H.
  cbv [unpatched Rules.exploration_continuation_drop_reasoning] in H.
  repeat step.
  - do 4 eexists. split; [reflexivity|]. split; [reflexivity|].
    repeat split; try apply H; try assumption.
    all: try (match goal with H : ident _ |- _ => apply H end).
    left. reflexivity.
  - do 4 eexists. split; [reflexivity|]. split; [reflexivity|].
    repeat split; try apply H; try assumption.
    all: try (match goal with H : ident _ |- _ => apply H end).
    right. reflexivity.
Qed.



End Rule1.

(* ================================================================= *)
(** ** Rule 5, [reasoning_autoscroll_user_scroll_flag], applied twice *)

Module Rule5.
Import Re Sem SemFacts ScanFacts Chars Twice RuleTools.

Lemma rule5_shape y env :
  Matches (unpatched Rules.reasoning_autoscroll_user_scroll_flag) [] y env ->
  exists el rf test,
    y = "const " ++ el ++ "=" ++ rf ++ ".current;" ++ el ++ "&&(" ++ test
        ++ el ++ ".scrollTop=" ++ el ++ ".scrollHeight)" /\
    env = [("ref", rf); ("el", el)] /\
    ident el /\ ident rf /\ (test = "" \/ test = scroll_test el).
Proof.
  intros H.
  cbv [unpatched Rules.reasoning_autoscroll_user_scroll_flag Rules.w] in H.
  inv_matches.
  - do 3 eexists. split; [reflexivity|]. split; [reflexivity|].
    repeat split; try discriminate;
      try (right; unfold scroll_test; apply chars_inj; eq_chars);
      simpl in *;
      repeat match goal with H : _ = true |- _ => rewrite H; clear H end;
      reflexivity.
  - do 3 eexists. split; [reflexivity|]. split; [reflexivity|].
    repeat split; try discriminate; try (left; reflexivity);
      simpl in *;
      repeat match goal with H : _ = true |- _ => rewrite H; clear H end;
      reflexivity.
Qed.


End Rule5.

(* ================================================================= *)
(** ** A rule applied twice *)

Import Re Sem SemFacts ScanFacts Chars Twice RuleTools.





(* ================================================================= *)
(** ** More of the script: the helpers, and [main] from end to end *)

Module HelperFacts.
Import Helpers Re SemFacts.

Lemma get_none_iff : forall (s : string) (n : nat),
  String.get n s = None <-> String.length s <= n.
Proof.
  induction s as [|c s IH]; intros n; simpl.
  - split; [lia | reflexivity].
  - destruct n as [|n]; [split; [discriminate | lia]|].
    rewrite IH. lia.
Qed.

Ltac get_facts :=
  repeat match goal with
  | E : String.get _ _ = None |- _ => apply get_none_iff in E
  | E : String.get ?n ?s = Some _ |- _ =>
      assert (~ String.length s <= n)
        by (rewrite <- get_none_iff; congruence);
      clear E
  end.

Lemma header_json_none_iff blob :
  header_json blob = None <-> String.length blob < 16.
Proof.
  unfold header_json, unpack_u32_le. simpl.
  destruct (String.get 12 blob) eqn:E0, (String.get 13 blob) eqn:E1,
           (String.get 14 blob) eqn:E2, (String.get 15 blob) eqn:E3;
    split; intros H; try discriminate; try reflexivity;
    get_facts; lia.
Qed.

Lemma get_app : forall (a s : string) (k : nat),
  String.get (String.length a + k) (a ++ s) = String.get k s.
Proof. induction a as [|c a IH]; intros s k; simpl; [reflexivity | apply IH]. Qed.

Lemma drop_app_plus : forall (a s : string) (k : nat),
  drop (String.length a + k) (a ++ s) = drop k s.
Proof. induction a as [|c a IH]; intros s k; simpl; [reflexivity | apply IH]. Qed.

Lemma unpack_u32_le_at (a s : string) (b0 b1 b2 b3 : ascii) :
  unpack_u32_le (a ++ String b0 (String b1 (String b2 (String b3 s))))
                (String.length a)
  = Some (N_of_ascii b0 + 256 * N_of_ascii b1 + 65536 * N_of_ascii b2
          + 16777216 * N_of_ascii b3)%N.
Proof.
  unfold unpack_u32_le.
  replace (String.get (String.length a))
    with (String.get (String.length a + 0)) by (now rewrite Nat.add_0_r).
  now rewrite !get_app.
Qed.

Section HashFacts.
Variable Hash : Type.
Variable new : Hash.
Variable update : Hash -> string -> Hash.
Variable hexdigest : Hash -> string.

(** X1: [sha256_asar_header_json] raises [struct.error] exactly when
    the archive has fewer than 16 bytes; on any longer archive it returns
    a digest, also when the archive ends before the header length read
    at offset 12 says it should. *)
Theorem sha256_asar_header_json_short blob :
  sha256_asar_header_json new update hexdigest blob = None
  <-> String.length blob < 16.
Proof.
  unfold sha256_asar_header_json. rewrite <- header_json_none_iff.
  destruct (header_json blob); split; congruence.
Qed.

(** X2: on an archive made of 12 bytes, the four bytes of a length
    written lowest byte first, that many bytes of header and anything
    after them, [sha256_asar_header_json] returns the digest of exactly
    the header bytes. *)
Theorem sha256_asar_header_json_hashes_header
        (pre json rest : string) (b0 b1 b2 b3 : ascii) :
  String.length pre = 12 ->
  N.of_nat (String.length json)
  = (N_of_ascii b0 + 256 * N_of_ascii b1 + 65536 * N_of_ascii b2
     + 16777216 * N_of_ascii b3)%N ->
  sha256_asar_header_json new update hexdigest
    (pre ++ String b0 (String b1 (String b2 (String b3 (json ++ rest)))))
  = Some (hexdigest (update new json)).
Proof.
  intros Hpre Hlen.
  unfold sha256_asar_header_json, header_json.
  replace 12 with (String.length pre) at 1 by exact Hpre.
  rewrite unpack_u32_le_at, <- Hlen, Nat2N.id.
  unfold slice.
  replace (16 + String.length json - 16) with (String.length json) by lia.
  replace 16 with (String.length pre + 4) by lia.
  rewrite drop_app_plus. cbn [drop].
  now rewrite take_app.
Qed.

(** What the chunk loop computes, when updates add up. *)
Lemma update_chunks_whole size :
  0 < size ->
  (forall h a b, update (update h a) b = update h (a ++ b)) ->
  forall fuel rest h,
    String.length rest < fuel ->
    update_chunks update fuel size h rest
    = match rest with EmptyString => h | _ => update h rest end.
Proof.
  intros Hsize Hadd.
  induction fuel as [|fuel IH]; intros rest h Hfuel; [lia|].
  cbn [update_chunks].
  destruct rest as [|c rest]; [now destruct size|].
  destruct size as [|size]; [lia|].
  cbn [take drop].
  rewrite IH by (rewrite ReFacts.drop_length; simpl in Hfuel; lia).
  pose proof (take_drop size rest) as Htd.
  destruct (drop size rest) as [|d rest'] eqn:Hd.
  - rewrite sapp_nil_r in Htd. now rewrite Htd.
  - rewrite Hadd. simpl. now rewrite Htd.
Qed.

(** X3: [sha256_file] reads the file in chunks, and the digest it
    returns is that of the whole file: of the state updated once with
    all the bytes, or of the fresh state for an empty file.  This rests
    on what [hashlib] promises, that updating with [a] and then [b] is
    updating with [a + b]. *)
Theorem sha256_file_hashes_whole_file content :
  (forall h a b, update (update h a) b = update h (a ++ b)) ->
  sha256_file new update hexdigest content
  = hexdigest (match content with
               | EmptyString => new
               | _ => update new content
               end).
Proof.
  intros Hadd. unfold sha256_file, sha256_file_by. f_equal.
  apply update_chunks_whole; [|exact Hadd|lia].
  apply Nat.mul_pos_pos; apply Nat.lt_0_succ.
Qed.

End HashFacts.

(** X4: [find_default_asar] raises, with the list of the files found,
    exactly when none of its three fixed candidates exists and the
    search below the working directory finds two or more [app.asar]
    files.  A candidate that exists keeps it from raising however many
    files the search would find. *)
Theorem find_default_asar_raises_iff path_exists matches :
  (exists e, find_default_asar path_exists matches = Raise e) <->
  (forall c, In c candidates -> path_exists c = false) /\
  2 <= List.length matches.
Proof.
  unfold find_default_asar.
  destruct (find path_exists candidates) as [c|] eqn:Hfind.
  - apply find_some in Hfind. destruct Hfind as [Hin Hex]. split.
    + intros [e He]. discriminate.
    + intros [Hnone _]. rewrite (Hnone _ Hin) in Hex. discriminate.
  - assert (Hnone : forall c, In c candidates -> path_exists c = false)
      by (intros c Hin; exact (find_none _ _ Hfind c Hin)).
    destruct matches as [|m [|m' rest]]; simpl; split.
    + intros [e He]. discriminate.
    + intros [_ Hlen]. lia.
    + intros [e He]. discriminate.
    + intros [_ Hlen]. lia.
    + intros _. split; [exact Hnone | lia].
    + intros _. eexists. reflexivity.
Qed.

(** X5: a path [find_default_asar] returns is one of the fixed
    candidates and exists, or it is the only file the search found, and
    then no candidate exists. *)
Theorem find_default_asar_found path_exists matches p :
  find_default_asar path_exists matches = Return (Some p) ->
  (In p candidates /\ path_exists p = true)
  \/ (matches = [p] /\ forall c, In c candidates -> path_exists c = false).
Proof.
  unfold find_default_asar.
  destruct (find path_exists candidates) as [c|] eqn:Hfind.
  - intros H. inversion H; subst. left. exact (find_some _ _ Hfind).
  - intros H. right.
    destruct matches as [|m [|m' rest]]; try discriminate.
    inversion H; subst. split; [reflexivity|].
    intros c Hin. exact (find_none _ _ Hfind c Hin).
Qed.

Lemma sha256_asar_header_json_hashes_header_witness :
  sha256_asar_header_json "" append (fun h => h)
    ("0123456789ab"
     ++ String "002" (String "000" (String "000" (String "000"
          ("{}" ++ "rest")))))
  = Some "{}".
Proof.
  apply (@sha256_asar_header_json_hashes_header
           string "" append (fun h => h) "0123456789ab" "{}" "rest"
           "002"%char "000"%char "000"%char "000"%char);
    reflexivity.
Defined.

Lemma sha256_file_hashes_whole_file_witness :
  sha256_file "" append (fun h => h) "abc" = "abc".
Proof.
  apply (@sha256_file_hashes_whole_file string "" append (fun h => h) "abc").
  intros h a b. apply sapp_assoc.
Defined.

Lemma find_default_asar_found_witness :
  let path_exists := String.eqb "work/extracted/resources/app.asar" in
  (In "work/extracted/resources/app.asar" candidates /\
   path_exists "work/extracted/resources/app.asar" = true)
  \/ (["app.asar"; "old/app.asar"] = ["work/extracted/resources/app.asar"] /\
      forall c, In c candidates -> path_exists c = false).
Proof.
  apply (@find_default_asar_found
           (String.eqb "work/extracted/resources/app.asar")
           ["app.asar"; "old/app.asar"]
           "work/extracted/resources/app.asar").
  reflexivity.
Defined.

End HelperFacts.

Module RuleFacts.
Import Re Sem SemFacts ScanFacts Twice.

Lemma no_patched_not_found rule text :
  patched rule = None -> primary_guard rule text = false.
Proof. intros H. unfold primary_guard, patched_found. now rewrite H. Qed.

(** X6: for a rule declared without a patched pattern, [apply_rule]
    never returns ["already"]: every call counts the matches of the
    unpatched pattern and applies, reports or raises by that count. *)
Theorem no_patched_never_already rule text dry t :
  patched rule = None ->
  apply_rule text rule dry <> Return (t, "already").
Proof.
  intros Hnone H.
  pose proof (no_patched_not_found rule text Hnone) as Hg.
  destruct dry.
  - rewrite apply_rule_dry_not_already in H by exact Hg. cbv zeta in H.
    destruct (Z.of_nat _ =? _)%Z; discriminate.
  - rewrite apply_rule_real_not_already in H by exact Hg. cbv zeta in H.
    destruct (Z.of_nat _ =? _)%Z; discriminate.
Qed.

Lemma no_patched_never_already_witness :
  apply_rule "a" (mkPatchRule "r" (Lit "a") (fun _ => "b") None 1) true
  <> Return ("a", "already") /\
  apply_rule "a" (mkPatchRule "r" (Lit "a") (fun _ => "b") None 1) false
  <> Return ("b", "already").
Proof.
  split.
  - apply (@no_patched_never_already
             (mkPatchRule "r" (Lit "a") (fun _ => "b") None 1) "a" true "a").
    reflexivity.
  - apply (@no_patched_never_already
             (mkPatchRule "r" (Lit "a") (fun _ => "b") None 1) "a" false "b").
    reflexivity.
Defined.

Lemma declared_match_not_empty rule x env :
  In rule Rules.patches -> Matches (unpatched rule) [] x env -> x <> "".
Proof.
  intros [H|[H|[H|[H|[H|[]]]]]] Hm; subst rule.
  - destruct (Rule1.rule1_shape Hm) as (i & bf & c & bd & Hx & _).
    subst x. discriminate.
  - destruct (Rule2.rule2_shape Hm) as (cb & f & c & Hx & _).
    subst x. destruct cb; discriminate.
  - cbv [unpatched Rules.show_reasoning_items_in_log] in Hm.
    apply Rule1.inv_seq in Hm. destruct Hm as (x1 & x2 & e1 & Hx & H1 & _).
    apply Rule1.inv_word in H1. destruct H1 as [_ [Hne _]].
    subst x. destruct x1; [contradiction | discriminate].
  - destruct (Rule4.rule4_shape Hm) as (s & f & el & rf & Hx & _).
    subst x. discriminate.
  - destruct (Rule5.rule5_shape Hm) as (el & rf & test & Hx & _).
    subst x. discriminate.
Qed.

(** X7: when a real run of one of the five declared rules returns
    ["applied"], the new text is the old one with a single piece
    replaced: the old text is [a ++ x ++ b], where [x] is the match
    [search] finds and the unpatched pattern matches nowhere in [a] or
    in [b], and the new text is [a], the replacement for that match,
    and [b]. *)
Theorem applied_replaces_one_match rule text text' :
  In rule Rules.patches ->
  apply_rule text rule false = Return (text', "applied") ->
  exists a x b m,
    text = a ++ x ++ b /\
    search (unpatched rule) text = Some m /\
    Matches (unpatched rule) [] x (m_groups m) /\
    ~ occurs (unpatched rule) a /\ ~ occurs (unpatched rule) b /\
    text' = a ++ replacement rule m ++ b.
Proof.
  intros Hin Happ.
  apply applied_shape; [|intros x env; now apply declared_match_not_empty|exact Happ].
  destruct Hin as [H|[H|[H|[H|[H|[]]]]]]; subst rule; reflexivity.
Qed.

Lemma applied_replaces_one_match_witness :
  exists a x b m,
    Samples.collapse_once = a ++ x ++ b /\
    search (unpatched Rules.exploration_no_autocollapse_on_finish)
           Samples.collapse_once = Some m /\
    Matches (unpatched Rules.exploration_no_autocollapse_on_finish) [] x
            (m_groups m) /\
    ~ occurs (unpatched Rules.exploration_no_autocollapse_on_finish) a /\
    ~ occurs (unpatched Rules.exploration_no_autocollapse_on_finish) b /\
    Samples.collapse_patched
    = a ++ replacement Rules.exploration_no_autocollapse_on_finish m ++ b.
Proof.
  apply (@applied_replaces_one_match
           Rules.exploration_no_autocollapse_on_finish
           Samples.collapse_once Samples.collapse_patched).
  - right. left. reflexivity.
  - vm_compute. reflexivity.
Defined.

End RuleFacts.

Module MainFacts.
Import Script RunFacts.

(** The end of a run whose result [Hrc] says is an exit status. *)
Ltac exit_leaf Hrun Hrc :=
  revert Hrc; end_run Hrun; intros Hrc;
  first
    [ discriminate Hrc
    | injection Hrc as Hrc; subst;
      split; [auto|];
      split;
      [ split;
        [ intros X; first [discriminate X | auto]
        | intros [X|X]; first [discriminate X | congruence | reflexivity] ]
      | intros X; first [discriminate X | eexists; reflexivity] ] ].

(** X8: when [main] returns, it returns 0 or 2; it returns 2 exactly
    when no archive is located or the located archive does not exist,
    and then all it has done is print one line to the standard error
    stream. *)
Theorem main_exit_status patches tools args w rc :
  let run := main_with patches tools args w in
  snd run = Return rc ->
  (rc = 0%Z \/ rc = 2%Z) /\
  (rc = 2%Z <->
   resolve_asar tools args = Return None \/ archive w = None) /\
  (rc = 2%Z ->
   exists line,
     fst run = mkWorld (archive w) (backup w) (tmp_out w) (extracted w)
                       (kept w) (stdout w) (stderr w ++ [line]) (trace w)).
Proof.
  cbv zeta.
  destruct w as [ar bk tm ex kp so se tr].
  destruct (main_with patches tools args (mkWorld ar bk tm ex kp so se tr))
    as [w' r] eqn:Hrun.
  fields. intros Hrc. run_in Hrun.
  destruct (resolve_asar tools args) as [[path|]|e0] eqn:Hres; run_in Hrun.
  2:{ exit_leaf Hrun Hrc. }
  2:{ exit_leaf Hrun Hrc. }
  destruct ar as [orig|]; run_in Hrun.
  2:{ exit_leaf Hrun Hrc. }
  destruct (asar_extract tools orig) as [dir|e0] eqn:Hex; run_in Hrun.
  2:{ exit_leaf Hrun Hrc. }
  destruct (find_webview_bundle_from_index_html dir) as [bundle|e0] eqn:Hfind;
    run_in Hrun.
  2:{ exit_leaf Hrun Hrc. }
  rewrite run_rules_spec in Hrun.
  destruct (fold_rules patches (dry_run args) (bundle_text dir bundle) [])
    as [[text sts]|e0] eqn:Hfold; run_in Hrun.
  2:{ exit_leaf Hrun Hrc. }
  rewrite print_statuses_spec in Hrun. run_in Hrun.
  destruct (dry_run args) eqn:Hdry; run_in Hrun.
  { exit_leaf Hrun Hrc. }
  destruct (String.eqb text (bundle_text dir bundle)) eqn:Hsame; run_in Hrun.
  { exit_leaf Hrun Hrc. }
  destruct (node_check tools text) as [[]|e0] eqn:Hcheck; run_in Hrun.
  2:{ exit_leaf Hrun Hrc. }
  destruct (no_beautify args) eqn:Hnb; run_in Hrun.
  - destruct (asar_pack tools (write_text dir bundle text)) as [packed|e0]
      eqn:Hpack; run_in Hrun.
    2:{ exit_leaf Hrun Hrc. }
    destruct (backup_write tools orig) as [|e0 [n|]] eqn:Hbw; run_in Hrun.
    2:{ exit_leaf Hrun Hrc. }
    2:{ exit_leaf Hrun Hrc. }
    destruct (archive_write tools packed) as [|e0 [n|]] eqn:Haw; run_in Hrun.
    2:{ exit_leaf Hrun Hrc. }
    2:{ exit_leaf Hrun Hrc. }
    destruct (keep_extracted args) eqn:Hkeep; run_in Hrun.
    2:{ exit_leaf Hrun Hrc. }
    destruct kp; run_in Hrun.
    + exit_leaf Hrun Hrc.
    + exit_leaf Hrun Hrc.
  - destruct (js_beautify tools text) as [pretty|e0] eqn:Hb; run_in Hrun.
    2:{ exit_leaf Hrun Hrc. }
    destruct (asar_pack tools _) as [packed|e0] eqn:Hpack; run_in Hrun.
    2:{ exit_leaf Hrun Hrc. }
    destruct (backup_write tools orig) as [|e0 [n|]] eqn:Hbw; run_in Hrun.
    2:{ exit_leaf Hrun Hrc. }
    2:{ exit_leaf Hrun Hrc. }
    destruct (archive_write tools packed) as [|e0 [n|]] eqn:Haw; run_in Hrun.
    2:{ exit_leaf Hrun Hrc. }
    2:{ exit_leaf Hrun Hrc. }
    destruct (keep_extracted args) eqn:Hkeep; run_in Hrun.
    2:{ exit_leaf Hrun Hrc. }
    destruct kp; run_in Hrun.
    + exit_leaf Hrun Hrc.
    + exit_leaf Hrun Hrc.
Qed.

Lemma main_exit_status_witness :
  let w := mkWorld None None None None None [] [] [] in
  let run := main (SampleRun.tools "") SampleRun.real_args w in
  snd run = Return 2%Z /\
  exists line, fst run = mkWorld None None None None None [] [line] [].
Proof.
  cbv zeta.
  assert (H : snd (main (SampleRun.tools "") SampleRun.real_args
                        (mkWorld None None None None None [] [] []))
              = Return 2%Z) by (vm_compute; reflexivity).
  split; [exact H|].
  destruct (@main_exit_status Rules.patches _ _ _ _ H) as (_ & _ & Hline).
  exact (Hline eq_refl).
Defined.

(** X11: whenever [main] has located an archive that exists, the
    temporary directory it extracts into is gone when [main] ends,
    whether it returns or raises and whichever step fails. *)
Theorem main_removes_tmpdir patches tools args w path orig :
  resolve_asar tools args = Return (Some path) ->
  archive w = Some orig ->
  extracted (fst (main_with patches tools args w)) = None.
Proof.
  intros Hres Har.
  destruct w as [ar bk tm ex kp so se tr]. simpl in Har. subst ar.
  destruct (main_with patches tools args
                      (mkWorld (Some orig) bk tm ex kp so se tr))
    as [w' r] eqn:Hrun.
  fields. run_in Hrun. rewrite Hres in Hrun. run_in Hrun.
  destruct (asar_extract tools orig) as [dir|e0]; run_in Hrun;
    [|now end_run Hrun].
  destruct (find_webview_bundle_from_index_html dir) as [bundle|e0];
    run_in Hrun; [|now end_run Hrun].
  rewrite run_rules_spec in Hrun.
  destruct (fold_rules patches (dry_run args) (bundle_text dir bundle) [])
    as [[text sts]|e0]; run_in Hrun; [|now end_run Hrun].
  rewrite print_statuses_spec in Hrun. run_in Hrun.
  destruct (dry_run args); run_in Hrun; [now end_run Hrun|].
  destruct (String.eqb text (bundle_text dir bundle)); run_in Hrun;
    [now end_run Hrun|].
  destruct (node_check tools text) as [[]|e0]; run_in Hrun;
    [|now end_run Hrun].
  destruct (no_beautify args); run_in Hrun.
  - destruct (asar_pack tools (write_text dir bundle text)) as [packed|e0];
      run_in Hrun; [|now end_run Hrun].
    destruct (backup_write tools orig) as [|e0 [n|]]; run_in Hrun;
      [|now end_run Hrun|now end_run Hrun].
    destruct (archive_write tools packed) as [|e0 [n|]]; run_in Hrun;
      [|now end_run Hrun|now end_run Hrun].
    destruct (keep_extracted args); run_in Hrun; [|now end_run Hrun].
    destruct kp; run_in Hrun; now end_run Hrun.
  - destruct (js_beautify tools text) as [pretty|e0]; run_in Hrun;
      [|now end_run Hrun].
    destruct (asar_pack tools _) as [packed|e0]; run_in Hrun;
      [|now end_run Hrun].
    destruct (backup_write tools orig) as [|e0 [n|]]; run_in Hrun;
      [|now end_run Hrun|now end_run Hrun].
    destruct (archive_write tools packed) as [|e0 [n|]]; run_in Hrun;
      [|now end_run Hrun|now end_run Hrun].
    destruct (keep_extracted args); run_in Hrun; [|now end_run Hrun].
    destruct kp; run_in Hrun; now end_run Hrun.
Qed.

Lemma main_removes_tmpdir_witness :
  extracted (fst (main (SampleRun.tools Samples.unpatched_bundle)
                       SampleRun.real_args SampleRun.world)) = None.
Proof.
  apply (@main_removes_tmpdir Rules.patches
           (SampleRun.tools Samples.unpatched_bundle) SampleRun.real_args
           SampleRun.world "app.asar" "original archive");
    reflexivity.
Defined.



(** X10: with [--keep-extracted], when the directory to keep the
    extracted files in exists already, [main] raises [RuntimeError] only
    after it has overwritten the archive: the archive holds the packed
    bytes, the backup the original ones, the existing directory is left
    alone, the temporary directory is removed, and [PATCHED] is not
    printed. *)
Theorem main_keep_refused_after_overwrite
        patches tools args w path orig dir bundle text sts pretty packed old :
  dry_run args = false ->
  no_beautify args = false ->
  keep_extracted args = true ->
  kept w = Some old ->
  resolve_asar tools args = Return (Some path) ->
  archive w = Some orig ->
  asar_extract tools orig = Return dir ->
  find_webview_bundle_from_index_html dir = Return bundle ->
  fold_rules patches false (bundle_text dir bundle) [] = Return (text, sts) ->
  text <> bundle_text dir bundle ->
  node_check tools text = Return tt ->
  js_beautify tools text = Return pretty ->
  asar_pack tools (write_text (write_text dir bundle text)
                              (beautified_path bundle) pretty)
  = Return packed ->
  backup_write tools orig = Written ->
  archive_write tools packed = Written ->
  let run := main_with patches tools args w in
  (exists msg, snd run = Raise (RuntimeError msg)) /\
  archive (fst run) = Some packed /\
  backup (fst run) = Some orig /\
  kept (fst run) = Some old /\
  extracted (fst run) = None /\
  stdout (fst run) = (stdout w ++ map status_line sts)%list.
Proof.
  intros Hd Hnb Hk Hkept Hr Ha He Hf Hrules Hdiff Hcheck Hb Hpack Hbw Haw run.
  subst run.
  destruct w as [ar bk tm ex kp so se tr]. simpl in Ha, Hkept. subst ar kp.
  destruct (main_with patches tools args
                      (mkWorld (Some orig) bk tm ex (Some old) so se tr))
    as [w' r] eqn:Hrun.
  fields. run_in Hrun.
  rewrite Hr in Hrun. run_in Hrun. rewrite He in Hrun. run_in Hrun.
  rewrite Hf in Hrun. run_in Hrun.
  rewrite Hd, run_rules_spec, Hrules in Hrun. run_in Hrun.
  rewrite print_statuses_spec in Hrun. run_in Hrun.
  apply String.eqb_neq in Hdiff. rewrite Hdiff in Hrun.
  rewrite Hcheck in Hrun. run_in Hrun.
  rewrite Hnb in Hrun. run_in Hrun. rewrite Hb in Hrun. run_in Hrun.
  rewrite Hpack in Hrun. run_in Hrun.
  rewrite Hbw in Hrun. run_in Hrun. rewrite Haw in Hrun. run_in Hrun.
  rewrite Hk in Hrun. run_in Hrun. end_run Hrun.
  repeat split; auto. eexists. reflexivity.
Qed.

Lemma main_keep_refused_after_overwrite_witness :
  let args := mkArgs (Some "app.asar") false false true in
  let w := mkWorld (Some "original archive") None None None (Some [])
                   [] [] [] in
  let run := main (SampleRun.tools Samples.unpatched_bundle) args w in
  (exists msg, snd run = Raise (RuntimeError msg)) /\
  backup (fst run) = Some "original archive".
Proof.
  pose proof (@main_keep_refused_after_overwrite
                Rules.patches (SampleRun.tools Samples.unpatched_bundle)
                (mkArgs (Some "app.asar") false false true)
                (mkWorld (Some "original archive") None None None (Some [])
                         [] [] [])
                "app.asar" "original archive"
                (SampleRun.dir Samples.unpatched_bundle)
                "webview/assets/index-Ab12.js") as H.
  edestruct H as (H1 & _ & H3 & _);
    [ reflexivity | reflexivity | reflexivity | reflexivity | reflexivity
    | reflexivity | reflexivity | vm_compute; reflexivity
    | vm_compute; reflexivity | vm_compute; discriminate | reflexivity
    | reflexivity | reflexivity | reflexivity | reflexivity | ].
  cbv zeta. unfold main. split; assumption.
Defined.

End MainFacts.
